(** * ewa-fs: a multi-tenant static-asset server (src/server.js)

    A shallow embedding of [server.js] and the properties of its
    specification.  The file follows the source top to bottom: JavaScript
    strings and objects, Node's [path] and [fs] modules, the Express
    request/response cycle, and then the middleware and routes in the order
    in which [server.js] registers them.

    Modelling conventions.
    - Strings are byte strings; the characters the program inspects
      ([,], [/], [\], [.]) are ASCII, so byte-wise scanning agrees with
      JavaScript's scanning of UTF-16 code units.
    - An absolute, normalised POSIX path is the list of its segments.
    - The file system is a finite tree; [fs] calls are recorded in a log so
      that "this call is never made" is a statement about the log.
    - Third-party middleware ([helmet], [express.json], [express-rate-limit],
      [express.static]) and the locale-dependent string functions are the
      fields of the class [Externals]: every theorem holds for whatever they
      do. *)

From Stdlib Require Import Strings.Ascii Strings.String Strings.Byte NArith.
From stdpp Require Import gmap strings list sorting.

Local Open Scope string_scope.
Local Open Scope list_scope.

(** ** JavaScript strings *)

(** Truthiness of a string: only the empty string is falsy. *)
Definition truthy_string (s : string) : bool := negb (bool_decide (s = "")).

(** Truthiness of a value that is either [undefined] or a string. *)
Definition truthy (v : option string) : bool :=
  match v with
  | None => false
  | Some s => truthy_string s
  end.

(** [v || d] for a [v] that is [undefined] or a string. *)
Definition or_else (v : option string) (d : string) : string :=
  match v with
  | Some s => if truthy_string s then s else d
  | None => d
  end.

(** A template literal prints [undefined] as the text "undefined". *)
Definition template (v : option string) : string := default "undefined" v.

(** [s.split(c)] for a one-character separator. *)
Fixpoint split (c : ascii) (s : string) : list string :=
  match s with
  | "" => [""]
  | String a r =>
      if bool_decide (a = c) then "" :: split c r
      else match split c r with
           | w :: ws => String a w :: ws
           | [] => [String a ""]
           end
  end.

(** [s.replace(/\\/g, "/")]. *)
Fixpoint replace_backslashes (s : string) : string :=
  match s with
  | "" => ""
  | String a r =>
      String (if bool_decide (a = "\"%char) then "/"%char else a)
             (replace_backslashes r)
  end.

(** The character class [[^/.]]. *)
Definition not_slash_or_dot (a : ascii) : bool :=
  negb (bool_decide (a = "/"%char)) && negb (bool_decide (a = "."%char)).

Fixpoint all_chars (p : ascii → bool) (s : string) : bool :=
  match s with
  | "" => true
  | String a r => p a && all_chars p r
  end.

(** The character [c] does not occur in [s]. *)
Definition free_of (c : ascii) (s : string) : bool :=
  all_chars (λ a, negb (bool_decide (a = c))) s.

(** [/\.[^/.]+$/] matches at the start of [s]: a dot, then one or more
    characters of the class, then the end of the string. *)
Definition extension_here (s : string) : bool :=
  match s with
  | String a r =>
      bool_decide (a = "."%char) && truthy_string r && all_chars not_slash_or_dot r
  | "" => false
  end.

(** [s.replace(/\.[^/.]+$/, "")]: the leftmost position at which the
    pattern matches is cut off, and a string without a match is returned
    unchanged. *)
Fixpoint strip_extension (s : string) : string :=
  match s with
  | "" => ""
  | String a r => if extension_here s then "" else String a (strip_extension r)
  end.

(** ** Node's [path] module (POSIX) *)

Abbreviation path := (list string).

(** The text of a path, as a template literal or a URL prints it. *)
Definition path_string (p : path) : string := "/" +:+ String.concat "/" p.

(** One step of [normalize]: empty segments and [.] are dropped, [..]
    removes the last segment (and stays at the root). *)
Definition push_segment (acc : path) (s : string) : path :=
  if bool_decide (s = "") || bool_decide (s = ".") then acc
  else if bool_decide (s = "..") then removelast acc
  else (acc ++ [s])%list.

(** [path.join(dir, s)] for an absolute, normalised [dir]. *)
Definition path_join (dir : path) (s : string) : path :=
  foldl push_segment dir (split "/" s).

(** [path.resolve(s)] in the working directory [cwd]. *)
Definition path_resolve (cwd : path) (s : string) : path :=
  match s with
  | String "/" _ => path_join [] s
  | _ => path_join cwd s
  end.

(** [path.relative(from, to)]: the common leading segments are dropped, one
    [..] climbs out of each remaining segment of [from], and the rest of
    [to] follows. *)
Fixpoint path_relative (from to : path) : string :=
  match from, to with
  | f :: from', t :: to' =>
      if bool_decide (f = t) then path_relative from' to'
      else String.concat "/" (((λ _, "..") <$> from) ++ to)
  | _, _ => String.concat "/" (((λ _, "..") <$> from) ++ to)
  end.

(** ** Node's [fs] module *)

(** A node of the file system: a regular file with its bytes, a directory
    with its entries in directory order, or anything else ([isDirectory()]
    is false for it: a symbolic link, a socket, a FIFO, a device).  A
    symbolic link occurs only as an entry that a walk lists: the tree does
    not record where it points. *)
#[local] Unset Elimination Schemes.
Inductive node :=
  | File (data : list byte)
  | Special
  | Dir (entries : list (string * node)).
#[local] Set Elimination Schemes.

Fixpoint lookup_entry (name : string) (entries : list (string * node)) : option node :=
  match entries with
  | [] => None
  | (n, x) :: rest => if bool_decide (n = name) then Some x else lookup_entry name rest
  end.

(** The node at an absolute path below the root [fs].  Links are not
    followed: this is path resolution for a path on which no name is a
    symbolic link, and the theorems that look up a path ask for a regular
    file, a directory or nothing there. *)
Fixpoint fs_lookup (fs : node) (p : path) : option node :=
  match p with
  | [] => Some fs
  | s :: p' =>
      match fs with
      | Dir entries =>
          match lookup_entry s entries with
          | Some x => fs_lookup x p'
          | None => None
          end
      | _ => None
      end
  end.

(** The calls into the file system that a request makes, in order. *)
Inductive fs_op :=
  | ExistsSync (p : path)
  | ReaddirSync (p : path)
  | ServeStatic (root : path).

(** [fs.existsSync(p)]. *)
Definition existsSync (fs : node) (p : path) : bool :=
  bool_decide (is_Some (fs_lookup fs p)).

(** [entry.isDirectory()] for a directory entry. *)
Definition isDirectory (x : node) : bool :=
  match x with
  | Dir _ => true
  | _ => false
  end.

(** A file name the operating system can hand out: not empty, not [.] or
    [..], and free of [/]. *)
Definition valid_name (s : string) : bool :=
  negb (bool_decide (s = "")) && negb (bool_decide (s = ".")) &&
  negb (bool_decide (s = "..")) && free_of "/" s.

(** Every name in the tree is valid. *)
Fixpoint valid_names (x : node) : bool :=
  match x with
  | Dir entries => forallb (λ e, valid_name e.1 && valid_names e.2) entries
  | _ => true
  end.

(** Names are unique within every directory of the tree. *)
Fixpoint unique_names (x : node) : bool :=
  match x with
  | Dir entries =>
      bool_decide (NoDup (entries.*1)) && forallb (λ e, unique_names e.2) entries
  | _ => true
  end.

(** ** JavaScript objects used as dictionaries *)

Section Properties.
Context {V : Type}.

(** The own properties of an object, in the order of their creation.
    Assigning to an existing key keeps its place. *)
Fixpoint props_set (k : string) (v : V) (o : list (string * V)) : list (string * V) :=
  match o with
  | [] => [(k, v)]
  | (k', v') :: rest =>
      if bool_decide (k' = k) then (k, v) :: rest else (k', v') :: props_set k v rest
  end.

Fixpoint props_get (k : string) (o : list (string * V)) : option V :=
  match o with
  | [] => None
  | (k', v') :: rest => if bool_decide (k' = k) then Some v' else props_get k rest
  end.

End Properties.

Definition digit_value (a : ascii) : option N :=
  let n := N_of_ascii a in
  if ((48 <=? n) && (n <=? 57))%N then Some (n - 48)%N else None.

Fixpoint decimal_value (acc : N) (s : string) : option N :=
  match s with
  | "" => Some acc
  | String a r => d ← digit_value a; decimal_value (10 * acc + d)%N r
  end.

(** A property key is an array index when it is the canonical decimal text
    of an integer below 2^32 - 1. *)
Definition array_index (k : string) : option N :=
  match k with
  | "" => None
  | String a r =>
      if bool_decide (a = "0"%char) && truthy_string r then None
      else n ← decimal_value 0 k; if (n <? 4294967295)%N then Some n else None
  end.

Definition index_le {V : Type} (a b : N * V) : Prop := (a.1 ≤ b.1)%N.

#[global] Instance index_le_dec {V : Type} (a b : N * V) : Decision (index_le a b) :=
  decide (a.1 ≤ b.1)%N.

(** The order in which [Object.values], [Object.keys] and [JSON.stringify]
    visit own properties: array indices in ascending numeric order, then
    the other keys in creation order. *)
Definition own_properties {V : Type} (o : list (string * V)) : list (string * V) :=
  (merge_sort index_le (omap (λ kv, i ← array_index kv.1; Some (i, kv)) o)).*2
  ++ filter (λ kv, array_index kv.1 = None) o.

(** *** The client registry *)

Record Client := {
  name : string;
  secret : string;
  assetDir : path
}.

(** The object [clients]: its own properties, and its prototype when an
    assignment to the key [__proto__] has replaced [Object.prototype] by a
    client record. *)
Record registry := {
  own : list (string * Client);
  proto : option Client
}.

(** [const clients = {}]. *)
Definition empty_registry : registry := {| own := []; proto := None |}.

(** [clients[k] = c] for an object [c]: the key [__proto__] runs the setter
    inherited from [Object.prototype], every other key creates or updates
    an own property. *)
Definition registry_set (R : registry) (k : string) (c : Client) : registry :=
  if bool_decide (k = "__proto__") then {| own := own R; proto := Some c |}
  else {| own := props_set k c (own R); proto := proto R |}.

(** The values a property read on the registry can produce. *)
Inductive jsval :=
  | Undefined
  | Str (s : string)
  | ClientObject (c : Client)
  | ObjectPrototype
  | Builtin (k : string).

(** The data properties of [Object.prototype]; all are functions. *)
Definition object_prototype_keys : list string :=
  ["constructor"; "hasOwnProperty"; "isPrototypeOf"; "propertyIsEnumerable";
   "toLocaleString"; "toString"; "valueOf"; "__defineGetter__";
   "__defineSetter__"; "__lookupGetter__"; "__lookupSetter__"].

Definition object_prototype_get (k : string) : jsval :=
  if bool_decide (k ∈ object_prototype_keys) then Builtin k else Undefined.

(** [CLIENTS[k]]: an own property first, then the prototype chain. *)
Definition registry_get (R : registry) (k : string) : jsval :=
  match props_get k (own R) with
  | Some c => ClientObject c
  | None =>
      match proto R with
      | Some p =>
          if bool_decide (k = "__proto__") then ClientObject p
          else if bool_decide (k = "name") then Str (name p)
          else if bool_decide (k = "secret") then Str (secret p)
          else if bool_decide (k = "assetDir") then Str (path_string (assetDir p))
          else object_prototype_get k
      | None =>
          if bool_decide (k = "__proto__") then ObjectPrototype
          else object_prototype_get k
      end
  end.

(** [Object.values(CLIENTS)]. *)
Definition Object_values (R : registry) : list Client := (own_properties (own R)).*2.

(** [!v] is false exactly for these. *)
Definition truthy_value (v : jsval) : bool :=
  match v with
  | Undefined => false
  | Str s => truthy_string s
  | _ => true
  end.

(** [v.secret] for a truthy [v]: only a client record has the property. *)
Definition secret_of (v : jsval) : option string :=
  match v with
  | ClientObject c => Some (secret c)
  | _ => None
  end.

(** The client record a property read yields, if it yields one. *)
Definition as_client (v : jsval) : option Client :=
  match v with
  | ClientObject c => Some c
  | _ => None
  end.

(** The client registered under the id [k]: the record [CLIENTS[k]]. *)
Definition registered (R : registry) (k : string) : option Client :=
  as_client (registry_get R k).

(** *** The asset index *)

(** [result[k] = v] for a string [v]: the inherited [__proto__] setter
    ignores a value that is not an object, so that key is never created. *)
Definition index_set (o : list (string * string)) (k v : string) : list (string * string) :=
  if bool_decide (k = "__proto__") then o else props_set k v o.

(** ** Loops *)

Section ForEach.
Context {A S : Type} (body : A → S → option S).

(** [for (const a of l) body], threading the state; [None] when an
    iteration throws. *)
Fixpoint for_each (l : list A) (st : S) : option S :=
  match l with
  | [] => Some st
  | a :: rest => st' ← body a st; for_each rest st'
  end.

End ForEach.

(** ** Requests and responses *)

Inductive body :=
  | NoBody
  | Text (s : string)
  | Json (props : list (string * string))
  | Bytes (data : list byte).

Record response := {
  status : nat;
  sent_headers : list (string * string);
  sent_body : body
}.

(** An incoming request. [headers] is Node's [req.headers] (names in lower
    case), [pathname] the path of the request URL, [client] the property
    the authentication middleware adds. *)
Record request := {
  method : string;
  pathname : string;
  protocol : string;
  headers : gmap string string;
  client : option Client
}.

(** The response under construction. *)
Record res := {
  statusCode : nat;
  res_headers : list (string * string)
}.

(** A fresh response object: status 200, no headers. *)
Definition new_res : res := {| statusCode := 200; res_headers := [] |}.

(** What a middleware or handler does with a request: send a response,
    call [next()], or throw an error that Express answers with [code]. *)
Inductive outcome :=
  | Done (r : response)
  | Next (req : request) (rs : res)
  | Throw (code : nat).

(** [req.client = c]. *)
Definition set_client (req : request) (c : Client) : request :=
  {| method := method req; pathname := pathname req; protocol := protocol req;
     headers := headers req; client := Some c |}.

(** [req.header(k)] and [req.get(k)] for a lower-case [k]. *)
Definition header (req : request) (k : string) : option string := headers req !! k.

(** [res.setHeader(k, v)]. *)
Definition setHeader (rs : res) (k v : string) : res :=
  {| statusCode := statusCode rs; res_headers := props_set k v (res_headers rs) |}.

(** [res.status(code)]. *)
Definition set_status (rs : res) (code : nat) : res :=
  {| statusCode := code; res_headers := res_headers rs |}.

(** [res.json(o)] for an object [o] whose values are strings: the body
    lists its properties in the order [JSON.stringify] visits them. *)
Definition send_json (rs : res) (o : list (string * string)) : response :=
  {| status := statusCode rs;
     sent_headers := res_headers rs;
     sent_body := Json (own_properties o) |}.

(** [res.send(text)]. *)
Definition send (rs : res) (text : string) : response :=
  {| status := statusCode rs; sent_headers := res_headers rs; sent_body := Text text |}.

(** The reason phrases of the status codes the server sends. *)
Definition status_message (code : nat) : string :=
  match code with
  | 204 => "No Content"
  | 400 => "Bad Request"
  | 404 => "Not Found"
  | 500 => "Internal Server Error"
  | _ => "Unknown"
  end.

(** [res.sendStatus(code)]: the reason phrase is the body, and Express drops
    the body of a 204 or 304 response. *)
Definition sendStatus (rs : res) (code : nat) : response :=
  {| status := code;
     sent_headers := res_headers rs;
     sent_body := if bool_decide (code = 204 ∨ code = 304) then NoBody
                  else Text (status_message code) |}.

(** ** What the server takes from its environment *)

Class Externals := {
  (** [String.prototype.toUpperCase] and [String.prototype.trim]. *)
  toUpperCase : string → string;
  trim : string → string;
  (** [decodeURIComponent], which Express applies to a route parameter;
      [None] when it throws. *)
  decodeURIComponent : string → option string;
  (** [helmet(options)]: sets response headers and calls [next()]. *)
  helmet : list (string * string) → list (string * string);
  (** [express.json()]: rejects the request or calls [next()]. *)
  express_json : request → res → option response;
  (** [rateLimit(options)]: its store, and one hit on it, which either
      passes, leaving the response headers it returns, or rejects the
      request with a response of its own. *)
  limiter : Type;
  rateLimit : limiter → request → res → limiter * (list (string * string) + response);
  (** [express.static(root)] on a request whose path is taken relative to
      the mount point; [None] when it calls [next()]. *)
  express_static : node → path → request → res → option response
}.

(** The process environment and working directory the server starts in. *)
Record config := {
  env : gmap string string;
  cwd : path
}.

(** A call that returns a value or throws an [Error] with a message. *)
Inductive attempt (A : Type) :=
  | Returns (a : A)
  | Throws (message : string).
Arguments Returns {A} a.
Arguments Throws {A} message.

(** ASCII lower case, for Express's case-insensitive route patterns. *)
Definition lower_char (a : ascii) : ascii :=
  let n := nat_of_ascii a in
  if bool_decide (65 ≤ n ≤ 90)%nat then ascii_of_nat (n + 32) else a.

Fixpoint lower (s : string) : string :=
  match s with
  | "" => ""
  | String a r => String (lower_char a) (lower r)
  end.

(** The route [path] of [app.get(path, ...)]: the whole request path must
    match, in any letter case, with an optional trailing slash. *)
Definition route_matches (route p : string) : bool :=
  bool_decide (lower p = route) || bool_decide (lower p = route +:+ "/").

(** The mount path [/assets/:client] of [app.use]: a prefix of the request
    path must match.  The result is the text of the [:client] segment and
    the rest of the path, which the mounted handler sees as its URL. *)
Definition mount_matches (p : string) : option (string * string) :=
  match split "/" p with
  | "" :: a :: c :: rest =>
      if bool_decide (lower a = "assets") && truthy_string c
      then Some (c, "/" +:+ String.concat "/" rest)
      else None
  | _ => None
  end.

(** [app.get] also answers [HEAD]. *)
Definition get_or_head (req : request) : bool :=
  bool_decide (method req = "GET") || bool_decide (method req = "HEAD").

(** The route guarded by [authenticateClient]: [GET /api/assets]. *)
Definition protected (req : request) : bool :=
  get_or_head req && route_matches "/api/assets" (pathname req).

(** The state of a walk: the object [result] and the log of [fs] calls. *)
Abbreviation walk_state := (list (string * string) * list fs_op)%type.

(** ** The server *)

Section Server.
Context {E : Externals}.

(** [s.split(",").map(c => c.trim()).filter(Boolean)]. *)
Definition comma_list (s : string) : list string :=
  filter (λ x, truthy_string x) (trim <$> split "," s).

(** [path.resolve(process.env.ASSETS_ROOT || "assets")]. *)
Definition ASSETS_ROOT (cfg : config) : path :=
  path_resolve (cwd cfg) (or_else (env cfg !! "ASSETS_ROOT") "assets").

(** [(process.env.CORS_ORIGINS || "").split(",")...]. *)
Definition ALLOWED_ORIGINS (cfg : config) : list string :=
  comma_list (or_else (env cfg !! "CORS_ORIGINS") "").

(** *** CORS middleware (lines 31-49) *)

(** [ALLOWED_ORIGINS.includes(origin)]. *)
Definition includes (origins : list string) (origin : option string) : bool :=
  match origin with
  | Some o => bool_decide (o ∈ origins)
  | None => false
  end.

(** [!origin || ALLOWED_ORIGINS.includes(origin)]. *)
Definition cors_permits (origins : list string) (req : request) : bool :=
  negb (truthy (header req "origin")) || includes origins (header req "origin").

Definition cors_headers (origins : list string) (req : request) (rs : res) : res :=
  let origin := header req "origin" in
  if cors_permits origins req then
    let rs := setHeader rs "Access-Control-Allow-Origin" (or_else origin "*") in
    let rs := setHeader rs "Access-Control-Allow-Credentials" "true" in
    let rs := setHeader rs "Access-Control-Allow-Methods" "GET,POST,OPTIONS" in
    setHeader rs "Access-Control-Allow-Headers"
      "Content-Type, Authorization, x-client-id, x-client-secret"
  else rs.

Definition cors (origins : list string) (req : request) (rs : res) : outcome :=
  let rs := cors_headers origins req rs in
  if bool_decide (method req = "OPTIONS") then Done (sendStatus rs 204)
  else Next req rs.

(** *** [loadClients] (lines 60-83) *)

(** The names listed in [process.env.CLIENTS]. *)
Definition client_names (cfg : config) : list string :=
  comma_list (or_else (env cfg !! "CLIENTS") "").

Definition client_id (cfg : config) (cname : string) : option string :=
  env cfg !! (toUpperCase cname +:+ "_ID").

Definition client_secret (cfg : config) (cname : string) : option string :=
  env cfg !! (toUpperCase cname +:+ "_SECRET").

(** The record stored for a client. *)
Definition client_record (cfg : config) (cname secret : string) : Client :=
  {| name := cname; secret := secret; assetDir := path_join (ASSETS_ROOT cfg) cname |}.

(** The [for] loop over the list of names. *)
Fixpoint loadClients_loop (cfg : config) (list : list string) (clients : registry)
  : attempt registry :=
  match list with
  | [] => Returns clients
  | cname :: rest =>
      let id := client_id cfg cname in
      let secret := client_secret cfg cname in
      if negb (truthy id) || negb (truthy secret)
      then Throws ("Missing credentials for client " +:+ cname)
      else
        match id, secret with
        | Some id, Some secret =>
            loadClients_loop cfg rest
              (registry_set clients id (client_record cfg cname secret))
        | _, _ => Throws ""   (* not reached: both are truthy strings here *)
        end
  end.

Definition loadClients (cfg : config) : attempt registry :=
  loadClients_loop cfg (client_names cfg) empty_registry.

(** *** [authenticateClient] (lines 88-104) *)

Definition authenticateClient (CLIENTS : registry) (req : request) (rs : res) : outcome :=
  let clientId := header req "x-client-id" in
  let clientSecret := header req "x-client-secret" in
  if negb (truthy clientId) || negb (truthy clientSecret)
  then Done (send_json (set_status rs 401) [("error", "Missing authentication headers")])
  else
    let client := registry_get CLIENTS (default "" clientId) in
    if negb (truthy_value client) || negb (bool_decide (secret_of client = clientSecret))
    then Done (send_json (set_status rs 403) [("error", "Invalid client credentials")])
    else
      match client with
      | ClientObject c => Next (set_client req c) rs
      | _ => Throw 500   (* not reached: only a client record has a secret *)
      end.

(** *** [buildAssetIndex] (lines 107-132) *)

(** [path.relative(dirPath, fullPath).replace(/\\/g, "/")]. *)
Definition relative_slashes (dirPath fullPath : path) : string :=
  replace_backslashes (path_relative dirPath fullPath).

Definition relativeKey (dirPath fullPath : path) : string :=
  strip_extension (relative_slashes dirPath fullPath).

Definition baseUrl (req : request) : string :=
  protocol req +:+ "://" +:+ template (header req "host").

Definition asset_url (req : request) (clientName : string) (dirPath fullPath : path) : string :=
  baseUrl req +:+ "/assets/" +:+ clientName +:+ "/" +:+ relative_slashes dirPath fullPath.

(** [walk(currentDir)], where [here] is the node at [currentDir]:
    [readdirSync] lists it (and throws when it is no directory), and the
    loop visits the entries in directory order. *)
Fixpoint walk (req : request) (clientName : string) (dirPath currentDir : path)
    (here : node) (st : walk_state) {struct here} : option walk_state :=
  match here with
  | Dir entries =>
      for_each
        (λ entry st,
           let fullPath := path_join currentDir entry.1 in
           if isDirectory entry.2
           then walk req clientName dirPath fullPath entry.2 st
           else Some (index_set st.1 (relativeKey dirPath fullPath)
                        (asset_url req clientName dirPath fullPath),
                      st.2))
        entries (st.1, (st.2 ++ [ReaddirSync currentDir])%list)
  | _ => None
  end.

(** [buildAssetIndex(req, clientName, dirPath)] on the file system [fs]:
    the [fs] calls made, and the index ([None] when [readdirSync] throws). *)
Definition buildAssetIndex (fs : node) (req : request) (clientName : string) (dirPath : path)
  : list fs_op * option (list (string * string)) :=
  match fs_lookup fs dirPath with
  | Some here =>
      match walk req clientName dirPath dirPath here ([], []) with
      | Some st => (st.2, Some st.1)
      | None => ([ReaddirSync dirPath], None)
      end
  | None => ([ReaddirSync dirPath], None)
  end.

(** *** Routes (lines 135-154) *)

(** The handler of [GET /api/assets], after [authenticateClient]. *)
Definition api_assets (fs : node) (req : request) (rs : res) : list fs_op * outcome :=
  match client req with
  | None => ([], Throw 500)
  | Some c =>
      if negb (existsSync fs (assetDir c))
      then ([ExistsSync (assetDir c)], Done (send_json rs []))
      else
        match buildAssetIndex fs req (name c) (assetDir c) with
        | (ops, Some assets) => (ExistsSync (assetDir c) :: ops, Done (send_json rs assets))
        | (ops, None) => (ExistsSync (assetDir c) :: ops, Throw 500)
        end
  end.

(** [app.get("/api/assets", authenticateClient, handler)]. *)
Definition api_assets_route (CLIENTS : registry) (fs : node) (req : request) (rs : res)
  : list fs_op * outcome :=
  if protected req then
    match authenticateClient CLIENTS req rs with
    | Next req' rs' => api_assets fs req' rs'
    | o => ([], o)
    end
  else ([], Next req rs).

(** The request as the handler mounted at [/assets/:client] sees it. *)
Definition mounted (req : request) (rest : string) : request :=
  {| method := method req; pathname := rest; protocol := protocol req;
     headers := headers req; client := client req |}.

(** [app.use("/assets/:client", ...)]. *)
Definition assets_route (CLIENTS : registry) (fs : node) (req : request) (rs : res)
  : list fs_op * outcome :=
  match mount_matches (pathname req) with
  | None => ([], Next req rs)
  | Some (segment, rest) =>
      match decodeURIComponent segment with
      | None => ([], Throw 400)
      | Some param =>
          match List.find (λ c, bool_decide (name c = param)) (Object_values CLIENTS) with
          | None => ([], Done (sendStatus rs 404))
          | Some c =>
              ([ServeStatic (assetDir c)],
               match express_static fs (assetDir c) (mounted req rest) rs with
               | Some r => Done r
               | None => Next req rs
               end)
          end
      end
  end.

(** [app.get("/health", ...)]. *)
Definition health_route (req : request) (rs : res) : list fs_op * outcome :=
  if get_or_head req && route_matches "/health" (pathname req)
  then ([], Done (send rs "OK"))
  else ([], Next req rs).

(** *** The application *)

(** One layer of the middleware stack: it may update the rate limiter's
    store and call into the file system. *)
Definition middleware : Type := limiter → request → res → limiter * list fs_op * outcome.

(** [res.removeHeader(name)]. *)
Definition removeHeader (name : string) (hs : list (string * string))
  : list (string * string) :=
  filter (λ h, h.1 ≠ name) hs.

(** The headers with which Express's final handler answers, from those of
    the response object: it removes the content headers of an earlier
    layer and sets its own security headers over any that were set.  Its
    own [Content-Type] and [Content-Length] replace what an earlier layer
    set for them; they describe the body it writes and, like those of
    every other response, are not listed. *)
Definition final_headers (hs : list (string * string)) : list (string * string) :=
  props_set "X-Content-Type-Options" "nosniff"
    (props_set "Content-Security-Policy" "default-src 'none'"
       (removeHeader "Content-Length"
          (removeHeader "Content-Type"
             (removeHeader "Content-Range"
                (removeHeader "Content-Language"
                   (removeHeader "Content-Encoding" hs)))))).

(** Express runs the layers in the order of their registration until one
    sends a response; a request no layer answers gets a 404 from the final
    handler, and a thrown error the status it carries. *)
Fixpoint run (stack : list middleware) (store : limiter) (req : request) (rs : res)
  : limiter * list fs_op * response :=
  match stack with
  | [] =>
      (store, [],
       {| status := 404; sent_headers := final_headers (res_headers rs);
          sent_body := Text ("Cannot " +:+ method req +:+ " " +:+ pathname req) |})
  | layer :: rest =>
      match layer store req rs with
      | (store', ops, Done r) => (store', ops, r)
      | (store', ops, Next req' rs') =>
          let '(store'', ops', r) := run rest store' req' rs' in
          (store'', (ops ++ ops')%list, r)
      | (store', ops, Throw code) =>
          (store', ops,
           {| status := code; sent_headers := final_headers (res_headers rs);
              sent_body := Text (status_message code) |})
      end
  end.

Definition helmet_layer : middleware :=
  λ store req rs,
    (store, [],
     Next req {| statusCode := statusCode rs; res_headers := helmet (res_headers rs) |}).

Definition cors_layer (origins : list string) : middleware :=
  λ store req rs, (store, [], cors origins req rs).

Definition json_layer : middleware :=
  λ store req rs,
    match express_json req rs with
    | Some r => (store, [], Done r)
    | None => (store, [], Next req rs)
    end.

Definition rateLimit_layer : middleware :=
  λ store req rs,
    match rateLimit store req rs with
    | (store', inl hs) =>
        (store', [], Next req {| statusCode := statusCode rs; res_headers := hs |})
    | (store', inr r) => (store', [], Done r)
    end.

Definition route_layer (route : request → res → list fs_op * outcome) : middleware :=
  λ store req rs, let '(ops, o) := route req rs in (store, ops, o).

(** The three routes, in source order. *)
Definition routes (CLIENTS : registry) (fs : node) : list middleware :=
  [route_layer (api_assets_route CLIENTS fs);
   route_layer (assets_route CLIENTS fs);
   route_layer health_route].

(** The layers registered after the CORS middleware, in source order. *)
Definition later_layers (CLIENTS : registry) (fs : node) : list middleware :=
  json_layer :: rateLimit_layer :: routes CLIENTS fs.

(** The running server: what startup computed once. *)
Record server := {
  CLIENTS : registry;
  origins : list string
}.

(** The whole stack, in the order of the [app.use] and [app.get] calls. *)
Definition stack (srv : server) (fs : node) : list middleware :=
  helmet_layer :: cors_layer (origins srv) :: later_layers (CLIENTS srv) fs.

(** Express sends no body in answer to [HEAD]. *)
Definition for_method (req : request) (r : response) : response :=
  if bool_decide (method req = "HEAD")
  then {| status := status r; sent_headers := sent_headers r; sent_body := NoBody |}
  else r.

Definition app (srv : server) (fs : node) (store : limiter) (req : request)
  : limiter * list fs_op * response :=
  let '(store', ops, r) := run (stack srv fs) store req new_res in
  (store', ops, for_method req r).

(** Evaluating the module: [loadClients()] runs before [app.listen], so an
    error it throws ends the process before any request is served. *)
Definition start (cfg : config) : attempt server :=
  match loadClients cfg with
  | Returns clients => Returns {| CLIENTS := clients; origins := ALLOWED_ORIGINS cfg |}
  | Throws message => Throws message
  end.

(** A request to the process started from [cfg]; [None] when there is no
    listening server. *)
Definition serve (cfg : config) (fs : node) (store : limiter) (req : request)
  : option (limiter * list fs_op * response) :=
  match start cfg with
  | Returns srv => Some (app srv fs store req)
  | Throws _ => None
  end.

End Server.

(** ** A reference environment

    One concrete choice of the external functions, on which the model is
    evaluated for the examples below: ASCII case conversion and trimming, a
    decoder that accepts text without escapes, a hit counter as rate
    limiter, and a static handler that serves regular files reached through
    segments that are not empty and do not start with a dot. *)

Definition upper_char (a : ascii) : ascii :=
  let n := nat_of_ascii a in
  if bool_decide (97 ≤ n ≤ 122)%nat then ascii_of_nat (n - 32) else a.

Fixpoint upper (s : string) : string :=
  match s with
  | "" => ""
  | String a r => String (upper_char a) (upper r)
  end.

Definition is_space (a : ascii) : bool :=
  bool_decide (a = " "%char) || bool_decide (9 ≤ nat_of_ascii a ≤ 13)%nat.

Fixpoint trim_start (s : string) : string :=
  match s with
  | String a r => if is_space a then trim_start r else s
  | "" => ""
  end.

Fixpoint trim_end (s : string) : string :=
  match s with
  | String a r =>
      match trim_end r with
      | "" => if is_space a then "" else String a ""
      | r' => String a r'
      end
  | "" => ""
  end.

Definition decode_plain (s : string) : option string :=
  if all_chars (λ a, negb (bool_decide (a = "%"%char))) s then Some s else None.

Definition servable (s : string) : bool :=
  match s with
  | "" => false
  | String a _ => negb (bool_decide (a = "."%char))
  end.

Definition static_files (fs : node) (root : path) (req : request) (rs : res)
  : option response :=
  if bool_decide (method req = "GET") || bool_decide (method req = "HEAD") then
    match split "/" (pathname req) with
    | "" :: segments =>
        if forallb servable segments then
          match fs_lookup fs (root ++ segments) with
          | Some (File data) =>
              Some {| status := 200; sent_headers := res_headers rs; sent_body := Bytes data |}
          | _ => None
          end
        else None
    | _ => None
    end
  else None.

Definition count_hits (hits : nat) (req : request) (rs : res)
  : nat * (list (string * string) + response) :=
  if bool_decide (hits < 120)%nat then (S hits, inl (res_headers rs))
  else (S hits, inr {| status := 429; sent_headers := res_headers rs;
                       sent_body := Text "Too many requests, please try again later." |}).

#[global] Instance reference_externals : Externals := {|
  toUpperCase := upper;
  trim := λ s, trim_end (trim_start s);
  decodeURIComponent := decode_plain;
  helmet := props_set "Cross-Origin-Resource-Policy" "cross-origin";
  express_json := λ _ _, None;
  limiter := nat;
  rateLimit := count_hits;
  express_static := static_files
|}.

(** ** Vocabulary of the specification *)

(** The entries the recursive walk reaches below a directory: every entry
    that is not a directory, with its path relative to the start of the
    walk, in traversal order.  Subdirectories are traversed, never listed. *)
Fixpoint reached (prefix : path) (x : node) : list (path * node) :=
  match x with
  | Dir entries =>
      flat_map
        (λ e, if isDirectory e.2 then reached (prefix ++ [e.1]) e.2
              else [(prefix ++ [e.1], e.2)])
        entries
  | _ => []
  end.

(** The relative path of an entry with forward slashes between its
    segments. *)
Definition with_slashes (rel : path) : string := String.concat "/" rel.

(** The key and the URL the specification gives the entry at [rel]: on
    POSIX the separator already is the forward slash. *)
Definition spec_key (rel : path) : string := strip_extension (with_slashes rel).

Definition spec_url (req : request) (clientName : string) (rel : path) : string :=
  baseUrl req +:+ "/assets/" +:+ clientName +:+ "/" +:+ with_slashes rel.

(** The key and the URL the walk computes for the entry at [rel]. *)
Definition entry_key (rel : path) : string :=
  strip_extension (replace_backslashes (with_slashes rel)).

Definition entry_url (req : request) (clientName : string) (rel : path) : string :=
  baseUrl req +:+ "/assets/" +:+ clientName +:+ "/" +:+ replace_backslashes (with_slashes rel).


(** The assignment [result[key] = url] the walk makes for the entry at [rel]. *)
Definition assign (req : request) (clientName : string)
    (result : list (string * string)) (rel : path) : list (string * string) :=
  index_set result (entry_key rel) (entry_url req clientName rel).

(** A configuration value is lacking when the variable is unset or empty. *)
Definition lacking (v : option string) : Prop := v = None ∨ v = Some "".

(** Assignment never creates an own property [__proto__], and own keys are
    distinct. *)
Definition registry_wf (R : registry) : Prop :=
  NoDup ((own R).*1) ∧ props_get "__proto__" (own R) = None.

(** The responses of the authentication middleware. *)
Definition unauthorized (rs : res) : response :=
  {| status := 401; sent_headers := res_headers rs;
     sent_body := Json [("error", "Missing authentication headers")] |}.

Definition forbidden (rs : res) : response :=
  {| status := 403; sent_headers := res_headers rs;
     sent_body := Json [("error", "Invalid client credentials")] |}.



(** The headers the final handler removes or sets. *)
Definition final_handler_headers : list string :=
  ["Content-Encoding"; "Content-Language"; "Content-Range";
   "Content-Type"; "Content-Length";
   "Content-Security-Policy"; "X-Content-Type-Options"].

(** A plain request: no [client] attached yet. *)
Definition GET (p : string) (hs : gmap string string) : request :=
  {| method := "GET"; pathname := p; protocol := "http"; headers := hs; client := None |}.

Section Admission.
Context {E : Externals}.

(** The response object as the layers before [express.json] leave it. *)
Definition after_cors (srv : server) (req : request) : res :=
  cors_headers (origins srv) req {| statusCode := 200; res_headers := helmet [] |}.

(** The request reaches the routes: it is no preflight, the body parser
    calls [next()], and the rate limiter lets it pass, leaving the store
    [store'] and the response object [rs]. *)
Definition passes (srv : server) (store : limiter) (req : request)
    (store' : limiter) (rs : res) : Prop :=
  method req ≠ "OPTIONS" ∧
  express_json req (after_cors srv req) = None ∧
  ∃ hs, rateLimit store req (after_cors srv req) = (store', inl hs) ∧
        rs = {| statusCode := 200; res_headers := hs |}.


(** *** Four sentences of the specification, as they are written *)


(** "For each file, compute its path relative to [assetDir], replace
    OS-specific directory separators with the forward-slash form, and strip
    the final extension.  This becomes the mapping key.  The mapping value
    is [{scheme}://{host}/assets/{clientName}/{relativePathWithSlashes}]":
    read on a directory that holds a single regular file. *)
Definition index_entry_as_specified : Prop :=
  ∀ fs req clientName dirPath entries rel data,
    fs_lookup fs dirPath = Some (Dir entries) →
    valid_names (Dir entries) = true → unique_names (Dir entries) = true →
    reached [] (Dir entries) = [(rel, File data)] →
    (buildAssetIndex fs req clientName dirPath).2
    = Some [(spec_key rel, spec_url req clientName rel)].

(** "[OPTIONS *]: CORS preflight — if CORS logic permits, returns 204 with
    no body; otherwise default handling": a preflight that is not permitted
    is passed on to the layers that follow. *)
Definition preflight_as_specified : Prop :=
  ∀ allowed req rs,
    method req = "OPTIONS" →
    if cors_permits allowed req
    then cors allowed req rs = Done (sendStatus (cors_headers allowed req rs) 204)
    else cors allowed req rs = Next req rs.

(** "resolves [:client] against the Registry by [name]; 404 if no such
    client name exists", without attempting to serve any file: read on
    every request below [/assets/:client] that reaches the routes, the
    name being the [:client] segment, as it is written or decoded. *)
Definition unknown_client_as_specified : Prop :=
  ∀ srv fs req store store' rs segment rest,
    passes srv store req store' rs →
    mount_matches (pathname req) = Some (segment, rest) →
    (∀ id c, (id, c) ∈ own (CLIENTS srv) →
       name c ≠ segment ∧ decodeURIComponent segment ≠ Some (name c)) →
    ∃ r, app srv fs store req = (store', [], r) ∧ status r = 404.

End Admission.

(** ** The scenario of the specification

    Client [acme] with id [abc] and secret [xyz]; its directory holds
    [logo.png] and [sub/dir/img.png]. *)

Definition acme_config : config :=
  {| env := {[ "CLIENTS" := "acme"; "ACME_ID" := "abc"; "ACME_SECRET" := "xyz" ]};
     cwd := ["srv"] |}.

Definition acme : Client :=
  {| name := "acme"; secret := "xyz"; assetDir := ["srv"; "assets"; "acme"] |}.

Definition acme_registry : registry := {| own := [("abc", acme)]; proto := None |}.

Definition acme_server : server := {| CLIENTS := acme_registry; origins := [] |}.

Definition acme_entries : list (string * node) :=
  [("logo.png", File [x89; x50; x4e; x47]);
   ("sub", Dir [("dir", Dir [("img.png", File [x01; x02])])])].

Definition acme_disk : node :=
  Dir [("srv", Dir [("assets", Dir [("acme", Dir acme_entries)])])].

Definition acme_headers : gmap string string :=
  {[ "host" := "host"; "x-client-id" := "abc"; "x-client-secret" := "xyz" ]}.

(** The request for the index that carries [acme]'s credentials, and the
    response object with which it reaches the routes. *)
Definition index_request : request := GET "/api/assets" acme_headers.

Definition plain_res : res :=
  {| statusCode := 200;
     res_headers :=
       [("Cross-Origin-Resource-Policy", "cross-origin");
        ("Access-Control-Allow-Origin", "*");
        ("Access-Control-Allow-Credentials", "true");
        ("Access-Control-Allow-Methods", "GET,POST,OPTIONS");
        ("Access-Control-Allow-Headers",
         "Content-Type, Authorization, x-client-id, x-client-secret")] |}.

(** A configuration in which [acme] has no secret. *)
Definition broken_config : config :=
  {| env := {[ "CLIENTS" := "acme"; "ACME_ID" := "abc" ]}; cwd := ["srv"] |}.

(** Two files of [acme] that differ only in their extension. *)
Definition collision_disk : node :=
  Dir [("srv", Dir [("assets", Dir [("acme", Dir
    [("a.jpg", File [x01]); ("a.png", File [x02])])])])].

(** A single file of [acme] whose name contains a backslash, as POSIX
    allows. *)
Definition backslash_disk : node :=
  Dir [("srv", Dir [("assets", Dir [("acme", Dir [("a\b.png", File [x01])])])])].

(** A preflight from an origin that is not allowed. *)
Definition foreign_preflight : request :=
  {| method := "OPTIONS"; pathname := "/api/assets"; protocol := "http";
     headers := {[ "origin" := "https://elsewhere.example" ]}; client := None |}.

(** The asset path of [acme] is a regular file, not a directory. *)
Definition file_disk : node :=
  Dir [("srv", Dir [("assets", Dir [("acme", File [x00])])])].


(** The asset directory of [acme] holds a dotfile. *)
Definition dotfile_disk : node :=
  Dir [("srv", Dir [("assets", Dir [("acme", Dir [(".env", File [x2a])])])])].

(** A configuration that sets no variable at all. *)
Definition bare_config : config := {| env := ∅; cwd := ["srv"] |}.

(** A configuration whose only client has the id [__proto__], and the
    registry that [loadClients] builds from it. *)
Definition proto_config : config :=
  {| env := {[ "CLIENTS" := "acme"; "ACME_ID" := "__proto__"; "ACME_SECRET" := "xyz" ]};
     cwd := ["srv"] |}.

Definition proto_registry : registry := {| own := []; proto := Some acme |}.

(** ** Strings and paths *)

Lemma truthy_false (v : option string) : truthy v = false ↔ lacking v.
Proof.
  unfold lacking, truthy, truthy_string. destruct v as [s|].
  - rewrite negb_false_iff, bool_decide_eq_true.
    split; [intros ->; by right|intros [?|?]; congruence].
  - split; [by left|done].
Qed.

Lemma truthy_true (v : option string) :
  truthy v = true ↔ ∃ s, v = Some s ∧ s ≠ "".
Proof.
  unfold truthy, truthy_string. destruct v as [s|].
  - rewrite negb_true_iff, bool_decide_eq_false.
    split; [by exists s|intros (? & [= <-] & ?); done].
  - split; [done|intros (? & ? & ?); done].
Qed.

Lemma free_of_cons c a s :
  free_of c (String a s) = true ↔ a ≠ c ∧ free_of c s = true.
Proof.
  unfold free_of. simpl.
  rewrite andb_true_iff, negb_true_iff, bool_decide_eq_false. done.
Qed.

Lemma split_free c s : free_of c s = true → split c s = [s].
Proof.
  induction s as [|a s IH]; [done|].
  intros [Ha Hs]%free_of_cons. simpl.
  rewrite bool_decide_false by done. by rewrite IH.
Qed.


Lemma concat_cons (c : ascii) s s' segs :
  String.concat (String c "") (s :: s' :: segs)
  = s +:+ String c (String.concat (String c "") (s' :: segs)).
Proof. done. Qed.


Lemma replace_backslashes_free s :
  free_of "\" s = true → replace_backslashes s = s.
Proof.
  induction s as [|a s IH]; [done|].
  intros [Ha Hs]%free_of_cons. simpl.
  rewrite bool_decide_false by done. by rewrite IH.
Qed.

Lemma replace_backslashes_app s t :
  replace_backslashes (s +:+ t) = replace_backslashes s +:+ replace_backslashes t.
Proof. induction s as [|a s IH]; simpl; [done|]. by rewrite IH. Qed.

Lemma replace_backslashes_concat segs :
  Forall (λ s, free_of "\" s = true) segs →
  replace_backslashes (with_slashes segs) = with_slashes segs.
Proof.
  unfold with_slashes.
  induction 1 as [|s segs Hs Hsegs IH]; [done|].
  destruct segs as [|s' segs].
  - by apply replace_backslashes_free.
  - rewrite concat_cons, replace_backslashes_app, replace_backslashes_free by done.
    cbn [replace_backslashes]. rewrite bool_decide_false by done. by rewrite IH.
Qed.

Lemma valid_name_spec s :
  valid_name s = true ↔ s ≠ "" ∧ s ≠ "." ∧ s ≠ ".." ∧ free_of "/" s = true.
Proof.
  unfold valid_name.
  rewrite !andb_true_iff, !negb_true_iff, !bool_decide_eq_false. tauto.
Qed.

Lemma path_join_valid dir s : valid_name s = true → path_join dir s = dir ++ [s].
Proof.
  intros (H1 & H2 & H3 & H4)%valid_name_spec.
  unfold path_join. rewrite split_free by done. simpl. unfold push_segment.
  by rewrite !bool_decide_false by done.
Qed.

Lemma path_relative_under dir rel : path_relative dir (dir ++ rel) = with_slashes rel.
Proof.
  induction dir as [|d dir IH]; simpl.
  - by destruct rel.
  - by rewrite bool_decide_true.
Qed.

Lemma all_chars_app p s t :
  all_chars p (s +:+ t) = all_chars p s && all_chars p t.
Proof. induction s as [|a s IH]; simpl; [done|]. by rewrite IH, andb_assoc. Qed.

(** Nothing before the last dot is an extension: the text after a dot that
    is followed by another dot does not match [[^/.]+$]. *)
Lemma extension_here_dot a s e :
  extension_here (String a (s +:+ String "." e)) = false.
Proof.
  unfold extension_here. rewrite all_chars_app. cbn [all_chars].
  replace (not_slash_or_dot ".") with false by done.
  by rewrite !andb_false_r.
Qed.

Lemma extension_here_slash a s e :
  extension_here (String a (s +:+ String "/" e)) = false.
Proof.
  unfold extension_here. rewrite all_chars_app. cbn [all_chars].
  replace (not_slash_or_dot "/") with false by done.
  by rewrite !andb_false_r.
Qed.

(** The last-dot rule: an extension of one or more characters other than
    [/] and [.] is cut off together with its dot. *)
Lemma strip_extension_cut s e :
  e ≠ "" → all_chars not_slash_or_dot e = true →
  strip_extension (s +:+ String "." e) = s.
Proof.
  intros He Hall. induction s as [|a s IH].
  - simpl. unfold truthy_string. rewrite bool_decide_false by done. simpl.
    by rewrite Hall.
  - change (String a s +:+ String "." e) with (String a (s +:+ String "." e)).
    cbn [strip_extension]. rewrite extension_here_dot. by rewrite IH.
Qed.

Lemma strip_extension_no_dot s : free_of "." s = true → strip_extension s = s.
Proof.
  induction s as [|a s IH]; [done|].
  intros [Ha Hs]%free_of_cons. simpl.
  rewrite bool_decide_false by done. simpl. by rewrite IH.
Qed.

(** A final segment without a dot is left alone, whatever the directories
    before it are called. *)
Lemma strip_extension_last_segment d s :
  free_of "." s = true →
  strip_extension (d +:+ String "/" s) = d +:+ String "/" s.
Proof.
  intros Hs. induction d as [|a d IH].
  - simpl. by rewrite strip_extension_no_dot.
  - change (String a d +:+ String "/" s) with (String a (d +:+ String "/" s)).
    cbn [strip_extension]. rewrite extension_here_slash. by rewrite IH.
Qed.

(** ** Objects *)

Lemma props_get_set {V} k k' (v : V) o :
  props_get k (props_set k' v o) = if bool_decide (k' = k) then Some v else props_get k o.
Proof.
  induction o as [|[k0 v0] o IH]; simpl; [done|].
  repeat (case_bool_decide; simpl); by simplify_eq.
Qed.

Lemma props_get_elem {V} k (v : V) o : props_get k o = Some v → (k, v) ∈ o.
Proof.
  induction o as [|[k0 v0] o IH]; simpl; [done|].
  case_bool_decide; intros; simplify_eq; [left|right; auto].
Qed.

Lemma props_get_None {V} k (o : list (string * V)) :
  props_get k o = None ↔ k ∉ o.*1.
Proof.
  induction o as [|[k0 v0] o IH]; simpl.
  - split; [intros _; apply not_elem_of_nil|done].
  - rewrite not_elem_of_cons. case_bool_decide; simplify_eq.
    + split; [done|intros []; done].
    + rewrite IH. split; [done|tauto].
Qed.

Lemma elem_props_get {V} k (v : V) o :
  NoDup (o.*1) → (k, v) ∈ o → props_get k o = Some v.
Proof.
  induction o as [|[k0 v0] o IH]; simpl.
  - intros _ []%elem_of_nil.
  - intros [Hk0 Ho]%NoDup_cons [?|Hin]%elem_of_cons; simplify_eq.
    + by rewrite bool_decide_true.
    + rewrite bool_decide_false; [auto|].
      intros ->. apply Hk0. apply list_elem_of_fmap. by exists (k, v).
Qed.

Lemma props_set_keys {V} k k' (v : V) o :
  k ∈ (props_set k' v o).*1 → k = k' ∨ k ∈ o.*1.
Proof.
  intros Hin. destruct (decide (k = k')) as [|Hne]; [by left|right].
  apply dec_stable. intros Hno%props_get_None.
  assert (props_get k (props_set k' v o) = None) as Hget.
  { rewrite props_get_set, bool_decide_false by done. done. }
  by apply props_get_None in Hget.
Qed.

Lemma props_set_NoDup {V} k (v : V) o :
  NoDup (o.*1) → NoDup ((props_set k v o).*1).
Proof.
  induction o as [|[k0 v0] o IH]; simpl.
  - intros _. apply NoDup_singleton.
  - intros [Hk0 Ho]%NoDup_cons. case_bool_decide; simplify_eq; simpl.
    + by apply NoDup_cons.
    + apply NoDup_cons. split; [|auto].
      intros [->|?]%props_set_keys; done.
Qed.

Lemma own_properties_perm {V} (o : list (string * V)) : own_properties o ≡ₚ o.
Proof.
  unfold own_properties. rewrite merge_sort_Permutation.
  induction o as [|[k v] o IH]; simpl; [done|].
  rewrite filter_cons. simpl. destruct (array_index k) as [i|]; simpl.
  - apply perm_skip, IH.
  - rewrite <- Permutation_middle. apply perm_skip, IH.
Qed.

Lemma elem_of_own_properties {V} (kv : string * V) o : kv ∈ own_properties o ↔ kv ∈ o.
Proof. by rewrite own_properties_perm. Qed.

Lemma elem_of_Object_values R c : c ∈ Object_values R ↔ ∃ k, (k, c) ∈ own R.
Proof.
  unfold Object_values. rewrite list_elem_of_fmap. split.
  - intros ([k c'] & Heq & Hin). simpl in Heq. subst c'.
    exists k. by apply elem_of_own_properties.
  - intros (k & Hin). exists (k, c). by rewrite elem_of_own_properties.
Qed.


Lemma find_first {A} (f : A → bool) l1 x l2 :
  f x = true → (∀ y, y ∈ l1 → f y = false) → List.find f (l1 ++ x :: l2) = Some x.
Proof.
  intros Hx. induction l1 as [|a l1 IH]; simpl; intros Hl1.
  - by rewrite Hx.
  - rewrite Hl1 by left. apply IH. intros y Hy. apply Hl1. by right.
Qed.

Lemma find_none {A} (f : A → bool) l :
  (∀ y, y ∈ l → f y = false) → List.find f l = None.
Proof.
  induction l as [|a l IH]; simpl; [done|]. intros Hl.
  rewrite Hl by left. apply IH. intros y Hy. apply Hl. by right.
Qed.

(** [find] stops at the first element that passes the test, when there is
    one. *)
Lemma find_stops {A} (f : A → bool) l x :
  x ∈ l → f x = true →
  ∃ before y after,
    l = before ++ y :: after ∧ f y = true ∧ (∀ z, z ∈ before → f z = false) ∧
    List.find f l = Some y.
Proof.
  induction l as [|a l IH]; [by intros ?%elem_of_nil|].
  intros Hin Hx. destruct (f a) eqn:Ha.
  - exists [], a, l. split_and!; [done|done|by intros ? ?%elem_of_nil|].
    simpl. by rewrite Ha.
  - apply elem_of_cons in Hin as [->|Hin]; [congruence|].
    destruct (IH Hin Hx) as (before & y & after & -> & Hy & Hbefore & Hfind).
    exists (a :: before), y, after. split_and!; [done|done| |].
    + intros z [->|Hz]%elem_of_cons; [done|by apply Hbefore].
    + simpl. by rewrite Ha.
Qed.

(** ** The file system *)

Lemma node_induction (P : node → Prop) :
  (∀ data, P (File data)) → P Special →
  (∀ entries, Forall (λ e, P e.2) entries → P (Dir entries)) →
  ∀ x, P x.
Proof.
  intros Hfile Hspecial Hdir. fix IH 1. intros [data| |entries]; [done..|].
  apply Hdir. induction entries as [|[ename x] entries IHentries]; constructor.
  - apply IH.
  - apply IHentries.
Qed.

Lemma existsSync_true fs p : existsSync fs p = true ↔ is_Some (fs_lookup fs p).
Proof. unfold existsSync. by rewrite bool_decide_eq_true. Qed.

Lemma existsSync_false fs p : existsSync fs p = false ↔ fs_lookup fs p = None.
Proof.
  unfold existsSync. rewrite bool_decide_eq_false.
  destruct (fs_lookup fs p); split; try done.
  intros []. by eexists.
Qed.

Lemma fs_lookup_app fs p q :
  fs_lookup fs (p ++ q) = fs_lookup fs p ≫= λ x, fs_lookup x q.
Proof.
  revert fs. induction p as [|s p IH]; intros fs; simpl; [done|].
  destruct fs as [| |entries]; [done..|].
  destruct (lookup_entry s entries); simpl; [apply IH|done].
Qed.

Lemma lookup_entry_props s entries : lookup_entry s entries = props_get s entries.
Proof. induction entries as [|[n y] entries IH]; simpl; [done|]. by rewrite IH. Qed.

Lemma lookup_entry_elem s x entries : lookup_entry s entries = Some x → (s, x) ∈ entries.
Proof. rewrite lookup_entry_props. apply props_get_elem. Qed.

(** The node the walk descends into is the node that [readdirSync] finds at
    [path.join(currentDir, entry.name)]. *)
Lemma child_at_joined_path fs currentDir entries ename child :
  fs_lookup fs currentDir = Some (Dir entries) → NoDup (entries.*1) →
  (ename, child) ∈ entries → valid_name ename = true →
  fs_lookup fs (path_join currentDir ename) = Some child.
Proof.
  intros Hdir Hnodup Hin Hname.
  rewrite path_join_valid, fs_lookup_app, Hdir by done. simpl.
  by rewrite lookup_entry_props, (elem_props_get ename child entries).
Qed.

(** ** The asset index *)

Section Index.
Context {E : Externals}.

Lemma relativeKey_under dirPath rel :
  relativeKey dirPath (dirPath ++ rel) = entry_key rel.
Proof. unfold relativeKey, relative_slashes, entry_key. by rewrite path_relative_under. Qed.

Lemma asset_url_under req clientName dirPath rel :
  asset_url req clientName dirPath (dirPath ++ rel) = entry_url req clientName rel.
Proof. unfold asset_url, relative_slashes, entry_url. by rewrite path_relative_under. Qed.

(** The walk of a directory returns; it has made one assignment for each
    entry it reached, in order, and its first [fs] call lists the
    directory. *)
Lemma walk_reached req clientName dirPath x :
  valid_names x = true → isDirectory x = true →
  ∀ prefix st, ∃ log,
    walk req clientName dirPath (dirPath ++ prefix) x st
    = Some (foldl (assign req clientName) st.1 (reached prefix x).*1,
            st.2 ++ ReaddirSync (dirPath ++ prefix) :: log).
Proof.
  induction x as [data| |entries IH] using node_induction; [done..|].
  intros Hvalid _ prefix [result ops]. cbn [walk reached fst snd].
  cbn [valid_names] in Hvalid.
  cut (∀ st : walk_state, ∃ log,
    for_each
      (λ entry st,
         if isDirectory entry.2
         then walk req clientName dirPath
                (path_join (dirPath ++ prefix) entry.1) entry.2 st
         else Some (index_set st.1
                      (relativeKey dirPath (path_join (dirPath ++ prefix) entry.1))
                      (asset_url req clientName dirPath
                         (path_join (dirPath ++ prefix) entry.1)),
                    st.2))
      entries st
    = Some (foldl (assign req clientName) st.1
              (flat_map
                 (λ e, if isDirectory e.2 then reached (prefix ++ [e.1]) e.2
                       else [(prefix ++ [e.1], e.2)]) entries).*1,
            st.2 ++ log)).
  { intros Hcut. destruct (Hcut (result, ops ++ [ReaddirSync (dirPath ++ prefix)]))
      as [log Hlog].
    exists log. rewrite Hlog. cbn [fst snd]. by rewrite <- app_assoc. }
  clear result ops.
  induction IH as [|[ename x] entries IHx _ IHentries]; intros [result ops].
  { exists []. cbn. by rewrite app_nil_r. }
  cbn [forallb fst snd] in Hvalid.
  apply andb_true_iff in Hvalid as [[Hname Hx]%andb_true_iff Hentries].
  cbn [for_each flat_map fst snd].
  rewrite path_join_valid, <- app_assoc by done.
  rewrite fmap_app, foldl_app.
  destruct (isDirectory x) eqn:Hdir.
  - destruct (IHx Hx Hdir (prefix ++ [ename]) (result, ops)) as [log1 Hlog1].
    cbn [fst snd] in Hlog1. rewrite Hlog1. cbn [mbind option_bind].
    destruct (IHentries Hentries
                (foldl (assign req clientName) result (reached (prefix ++ [ename]) x).*1,
                 ops ++ ReaddirSync (dirPath ++ prefix ++ [ename]) :: log1))
      as [log2 Hlog2].
    cbn [fst snd] in Hlog2. rewrite Hlog2.
    eexists. by rewrite <- app_assoc.
  - cbn [mbind option_bind]. rewrite relativeKey_under, asset_url_under.
    destruct (IHentries Hentries (assign req clientName result (prefix ++ [ename]), ops))
      as [log2 Hlog2].
    exists log2. exact Hlog2.
Qed.

Lemma buildAssetIndex_directory fs req clientName dirPath entries :
  fs_lookup fs dirPath = Some (Dir entries) → valid_names (Dir entries) = true →
  ∃ log,
    buildAssetIndex fs req clientName dirPath
    = (ReaddirSync dirPath :: log,
       Some (foldl (assign req clientName) [] (reached [] (Dir entries)).*1)).
Proof.
  intros Hdir Hvalid. unfold buildAssetIndex. rewrite Hdir.
  destruct (walk_reached req clientName dirPath (Dir entries) Hvalid eq_refl [] ([], []))
    as [log Hlog].
  rewrite app_nil_r in Hlog. rewrite Hlog. by exists log.
Qed.



(** A path that leads from a directory to something that is no directory
    names an entry the walk reaches. *)
Lemma reached_lookup x rel y prefix :
  fs_lookup x rel = Some y → isDirectory x = true → isDirectory y = false →
  (prefix ++ rel, y) ∈ reached prefix x.
Proof.
  revert x prefix. induction rel as [|s rel IH]; intros x prefix; simpl.
  - intros [= ->] ? ?. congruence.
  - destruct x as [| |entries]; [done..|].
    destruct (lookup_entry s entries) as [z|] eqn:Hs; [|done].
    intros Hrel _ Hy. apply lookup_entry_elem in Hs.
    apply list_elem_of_In, in_flat_map. exists (s, z).
    split; [by apply list_elem_of_In|]. apply list_elem_of_In. cbn [fst snd].
    destruct (isDirectory z) eqn:Hz.
    + rewrite (assoc_L _ prefix [s] rel : prefix ++ s :: rel = (prefix ++ [s]) ++ rel).
      by apply IH.
    + destruct rel as [|s' rel]; simpl in Hrel.
      * injection Hrel as ->. rewrite list_elem_of_singleton. done.
      * by destruct z.
Qed.



Lemma props_set_elem {V} k (v : V) k' v' o :
  (k, v) ∈ props_set k' v' o → (k, v) = (k', v') ∨ (k, v) ∈ o.
Proof.
  induction o as [|[k0 v0] o IH]; simpl.
  - intros ->%list_elem_of_singleton. by left.
  - case_bool_decide; intros [->|Hin]%elem_of_cons; auto.
    + right. by right.
    + right. left.
    + destruct (IH Hin); auto. right. by right.
Qed.

(** A key keeps its value through assignments to other keys. *)
Lemma foldl_assign_other req clientName k rels o :
  (∀ r, r ∈ rels → entry_key r ≠ k) →
  props_get k (foldl (assign req clientName) o rels) = props_get k o.
Proof.
  revert o. induction rels as [|r rels IH]; intros o Hrels; simpl; [done|].
  rewrite IH by (intros; apply Hrels; by right).
  unfold assign, index_set. case_bool_decide; [done|].
  rewrite props_get_set, bool_decide_false; [done|]. apply Hrels. left.
Qed.

(** The last assignment to a key decides its value. *)
Lemma foldl_assign_last req clientName before rel after o :
  entry_key rel ≠ "__proto__" →
  (∀ r, r ∈ after → entry_key r ≠ entry_key rel) →
  props_get (entry_key rel) (foldl (assign req clientName) o (before ++ rel :: after))
  = Some (entry_url req clientName rel).
Proof.
  intros Hproto Hafter. rewrite foldl_app. simpl.
  rewrite foldl_assign_other by done.
  unfold assign at 1, index_set. rewrite bool_decide_false by done.
  by rewrite props_get_set, bool_decide_true.
Qed.

(** Every entry of the index was assigned for some reached entry. *)
Lemma foldl_assign_elem req clientName k v rels o :
  (k, v) ∈ foldl (assign req clientName) o rels →
  (k, v) ∈ o ∨ ∃ r, r ∈ rels ∧ k = entry_key r ∧ v = entry_url req clientName r.
Proof.
  revert o. induction rels as [|r rels IH]; intros o; simpl; [by left|].
  intros [Hin|(r' & ? & ? & ?)]%IH.
  - unfold assign, index_set in Hin. case_bool_decide; [by left|].
    apply props_set_elem in Hin as [[= -> ->]|?]; [|by left].
    right. exists r. split; [left|done].
  - right. exists r'. split; [by right|done].
Qed.

End Index.

(** ** The registry *)

Lemma empty_registry_wf : registry_wf empty_registry.
Proof. split; [apply NoDup_nil_2|done]. Qed.

Lemma registry_set_wf R k c : registry_wf R → registry_wf (registry_set R k c).
Proof.
  intros [Hkeys Hproto]. unfold registry_set. case_bool_decide; [done|].
  split; simpl.
  - by apply props_set_NoDup.
  - by rewrite props_get_set, bool_decide_false.
Qed.

Lemma as_client_prototype k : as_client (object_prototype_get k) = None.
Proof. unfold object_prototype_get. by case_bool_decide. Qed.

(** A key that is not an own property yields a client record only as
    [__proto__], and then the prototype. *)
Lemma registered_inherited R k :
  props_get k (own R) = None →
  registered R k = if bool_decide (k = "__proto__") then proto R else None.
Proof.
  intros Hk. unfold registered, registry_get. rewrite Hk.
  destruct (proto R) as [p|]; repeat case_bool_decide; simpl; try done;
    apply as_client_prototype.
Qed.

Lemma registered_own R k c : props_get k (own R) = Some c → registered R k = Some c.
Proof. intros Hk. unfold registered, registry_get. by rewrite Hk. Qed.

Lemma registered_set R k c k' :
  registry_wf R →
  registered (registry_set R k c) k' = if bool_decide (k = k') then Some c else registered R k'.
Proof.
  intros [_ Hproto]. unfold registry_set. case_bool_decide as Hk.
  - subst k. destruct (props_get k' (own R)) as [c'|] eqn:Hk'.
    + rewrite (registered_own R k' c') by done.
      rewrite bool_decide_false by congruence.
      by apply registered_own.
    + rewrite !registered_inherited by done. simpl.
      case_bool_decide as Hk; [by rewrite bool_decide_true|by rewrite bool_decide_false].
  - destruct (decide (k = k')) as [<-|Hne].
    + rewrite bool_decide_true by done. apply registered_own. simpl.
      by rewrite props_get_set, bool_decide_true.
    + rewrite bool_decide_false by done.
      unfold registered, registry_get. simpl.
      by rewrite props_get_set, bool_decide_false.
Qed.

Section Registry.
Context {E : Externals}.

(** The loop returns exactly when no listed client lacks a value. *)
Lemma loadClients_loop_throws cfg names R0 :
  (∃ message, loadClients_loop cfg names R0 = Throws message) ↔
  ∃ cname, cname ∈ names ∧
    (lacking (client_id cfg cname) ∨ lacking (client_secret cfg cname)).
Proof.
  revert R0. induction names as [|n names IH]; intros R0; cbn [loadClients_loop].
  - split; [intros [? [=]]|intros (? & []%elem_of_nil & _)].
  - destruct (truthy (client_id cfg n)) eqn:Hid; simpl.
    2: { split; [|by eauto]. intros _. exists n. split; [left|].
         left. by apply truthy_false. }
    destruct (truthy (client_secret cfg n)) eqn:Hsecret; simpl.
    2: { split; [|by eauto]. intros _. exists n. split; [left|].
         right. by apply truthy_false. }
    apply truthy_true in Hid as Hid'. destruct Hid' as (id & Hid' & ?).
    apply truthy_true in Hsecret as Hsecret'. destruct Hsecret' as (s & Hsecret' & ?).
    rewrite Hid', Hsecret'. rewrite IH. split.
    + intros (m & ? & ?). exists m. split; [by right|done].
    + intros (m & [->|?]%elem_of_cons & Hm); [|by eauto].
      rewrite <- !truthy_false in Hm. destruct Hm; congruence.
Qed.

(** What the loop leaves in the registry: under each id, the record of the
    last listed client with that id. *)
Lemma loadClients_loop_returns cfg names R0 R :
  loadClients_loop cfg names R0 = Returns R → registry_wf R0 →
  registry_wf R ∧
  (∀ cname, cname ∈ names →
     truthy (client_id cfg cname) = true ∧ truthy (client_secret cfg cname) = true) ∧
  ∀ id c, registered R id = Some c ↔
    (∃ before cname after s,
        names = before ++ cname :: after ∧
        client_id cfg cname = Some id ∧ client_secret cfg cname = Some s ∧
        c = client_record cfg cname s ∧
        ∀ later, later ∈ after → client_id cfg later ≠ Some id) ∨
    (registered R0 id = Some c ∧ ∀ cname, cname ∈ names → client_id cfg cname ≠ Some id).
Proof.
  revert R0. induction names as [|n names IH]; intros R0; cbn [loadClients_loop].
  - intros [= ->] Hwf. split; [done|]. split; [by intros ? []%elem_of_nil|].
    intros id c. split.
    + intros ?. right. split; [done|]. by intros ? []%elem_of_nil.
    + intros [(before & ? & ? & ? & Hnil & _)|[? _]]; [|done].
      by destruct before.
  - destruct (truthy (client_id cfg n)) eqn:Hid; [|done].
    destruct (truthy (client_secret cfg n)) eqn:Hsecret; [|done]. simpl.
    destruct (client_id cfg n) as [i|] eqn:Hi; [|done].
    destruct (client_secret cfg n) as [s|] eqn:Hs; [|done].
    intros Hloop Hwf.
    destruct (IH _ Hloop (registry_set_wf _ i (client_record cfg n s) Hwf))
      as (HwfR & Htruthy & Hreg).
    split; [done|]. split.
    { intros m [->|?]%elem_of_cons; [by rewrite Hi, Hs|auto]. }
    intros id c. rewrite Hreg, registered_set by done. split.
    + intros [(before & m & after & s' & -> & ? & ? & ? & ?)|[Hset Hnames]].
      * left. exists (n :: before), m, after, s'. done.
      * case_bool_decide as Hk.
        -- left. exists [], n, names, s. simplify_eq.
           by repeat split.
        -- right. split; [done|].
           intros m [->|?]%elem_of_cons; [congruence|auto].
    + intros [(before & m & after & s' & Hnames & Hm & Hs' & -> & Hafter)|[HR0 Hnames]].
      * destruct before as [|b before]; simplify_eq/=.
        -- right. rewrite bool_decide_true by done. split; [congruence|done].
        -- left. exists before, m, after, s'. done.
      * right. rewrite bool_decide_false.
        -- split; [done|]. intros m Hm. apply Hnames. by right.
        -- intros ->. apply (Hnames n); [left|done].
Qed.

End Registry.

(** ** Authentication *)

Section Authentication.
Context {E : Externals}.

(** With both headers present and not empty, the decision rests on the
    value read from the registry. *)
Lemma authenticateClient_present R req rs id s :
  header req "x-client-id" = Some id → header req "x-client-secret" = Some s →
  id ≠ "" → s ≠ "" →
  authenticateClient R req rs
  = if negb (truthy_value (registry_get R id))
       || negb (bool_decide (secret_of (registry_get R id) = Some s))
    then Done (forbidden rs)
    else match registry_get R id with
         | ClientObject c => Next (set_client req c) rs
         | _ => Throw 500
         end.
Proof.
  intros Hid Hs Hid_ne Hs_ne. unfold authenticateClient. rewrite Hid, Hs. simpl.
  unfold truthy_string. by rewrite !bool_decide_false by done.
Qed.

Lemma authenticateClient_accepts R req rs id c :
  header req "x-client-id" = Some id → header req "x-client-secret" = Some (secret c) →
  id ≠ "" → secret c ≠ "" → registered R id = Some c →
  authenticateClient R req rs = Next (set_client req c) rs.
Proof.
  intros Hid Hs Hid_ne Hs_ne Hc.
  rewrite (authenticateClient_present R req rs id (secret c)) by done.
  unfold registered in Hc. destruct (registry_get R id); simplify_eq/=.
  by rewrite bool_decide_true.
Qed.

(** C3. Missing-header authentication: when the [x-client-id] or the
    [x-client-secret] header of a request is absent, [authenticateClient]
    answers 401 with the JSON error body and does not call [next()],
    whatever the registry holds; on the protected route the handler behind
    it never runs, so no file-system call is made. *)
Theorem missing_header_is_401 (R : registry) (fs : node) (req : request) (rs : res) :
  header req "x-client-id" = None ∨ header req "x-client-secret" = None →
  authenticateClient R req rs = Done (unauthorized rs) ∧
  (protected req = true → api_assets_route R fs req rs = ([], Done (unauthorized rs))).
Proof.
  intros Hmissing.
  assert (authenticateClient R req rs = Done (unauthorized rs)) as Hauth.
  { unfold authenticateClient.
    destruct Hmissing as [-> | ->]; simpl; [done|].
    by rewrite orb_true_r. }
  split; [done|]. intros Hroute. unfold api_assets_route. by rewrite Hroute, Hauth.
Qed.

(** C10. Empty header values count as missing: when the [x-client-id] or
    the [x-client-secret] header is present with the empty string as its
    value, [authenticateClient] answers 401, not 403, whatever the other
    header and the registry hold. *)
Theorem empty_header_is_401 (R : registry) (fs : node) (req : request) (rs : res) :
  header req "x-client-id" = Some "" ∨ header req "x-client-secret" = Some "" →
  authenticateClient R req rs = Done (unauthorized rs) ∧
  (protected req = true → api_assets_route R fs req rs = ([], Done (unauthorized rs))).
Proof.
  intros Hempty.
  assert (authenticateClient R req rs = Done (unauthorized rs)) as Hauth.
  { unfold authenticateClient.
    destruct Hempty as [-> | ->]; simpl; [done|].
    by rewrite orb_true_r. }
  split; [done|]. intros Hroute. unfold api_assets_route. by rewrite Hroute, Hauth.
Qed.

(** C4. Invalid-credential authentication: with both headers present (and
    not empty), [authenticateClient] answers 403 with the JSON error body
    and does not call [next()] when no client is registered under the
    supplied id, or when the registered client's secret is not the very
    string supplied; otherwise it calls [next()] with the request as it
    was except that [req.client] now is that client's record, and with the
    response object untouched, which on the protected route runs the index
    handler on that request.  For every id other than [__proto__] the
    registered client is the own property of the registry under that
    key. *)
Theorem credentials_decide (R : registry) (fs : node) (req : request) (rs : res)
    (id s : string) :
  header req "x-client-id" = Some id → header req "x-client-secret" = Some s →
  id ≠ "" → s ≠ "" →
  (registered R id = None → authenticateClient R req rs = Done (forbidden rs)) ∧
  (∀ c, registered R id = Some c → secret c ≠ s →
        authenticateClient R req rs = Done (forbidden rs)) ∧
  (∀ c, registered R id = Some c → secret c = s →
        ∃ req',
          authenticateClient R req rs = Next req' rs ∧
          client req' = Some c ∧
          method req' = method req ∧ pathname req' = pathname req ∧
          protocol req' = protocol req ∧ headers req' = headers req ∧
          (protected req = true →
           api_assets_route R fs req rs = api_assets fs req' rs)) ∧
  (id ≠ "__proto__" → registered R id = props_get id (own R)).
Proof.
  intros Hid Hs Hid_ne Hs_ne.
  pose proof (authenticateClient_present R req rs id s Hid Hs Hid_ne Hs_ne) as Hauth.
  split; [|split; [|split]].
  - intros Hnone. rewrite Hauth. unfold registered in Hnone.
    destruct (registry_get R id); try done; simpl; by rewrite ?orb_true_r.
  - intros c Hc Hsecret. rewrite Hauth. unfold registered in Hc.
    destruct (registry_get R id); simplify_eq/=.
    by rewrite bool_decide_false by congruence.
  - intros c Hc <-.
    pose proof (authenticateClient_accepts R req rs id c Hid Hs Hid_ne Hs_ne Hc) as Hnext.
    exists (set_client req c). split; [done|]. repeat (split; [done|]).
    intros Hroute. unfold api_assets_route. by rewrite Hroute, Hnext.
  - intros Hproto.
    destruct (props_get id (own R)) as [c|] eqn:Hown.
    + by apply registered_own.
    + rewrite registered_inherited by done. by rewrite bool_decide_false.
Qed.

End Authentication.

(** ** Startup *)

Section Startup.
Context {E : Externals}.

Lemma registered_empty id : registered empty_registry id = None.
Proof.
  rewrite registered_inherited by done. simpl. by case_bool_decide.
Qed.

(** C5. Startup configuration failure: [loadClients] throws exactly when
    some name of the comma-separated client list lacks an id or a secret in
    the configuration (the variable is unset or empty); the process then
    has no server and serves no request.  When it returns, the registry
    holds under each id the record of the last listed client with that id,
    with that client's name, its secret, and [assetDir] the join of
    [ASSETS_ROOT] and the name, and it holds no other record. *)
Theorem loadClients_fails_exactly (cfg : config) :
  ((∃ message, loadClients cfg = Throws message) ↔
   ∃ cname, cname ∈ client_names cfg ∧
     (lacking (client_id cfg cname) ∨ lacking (client_secret cfg cname))) ∧
  (∀ message, loadClients cfg = Throws message →
     start cfg = Throws message ∧ ∀ fs store req, serve cfg fs store req = None) ∧
  (∀ R, loadClients cfg = Returns R →
     ∀ id c, registered R id = Some c ↔
       ∃ before cname after s,
         client_names cfg = before ++ cname :: after ∧
         client_id cfg cname = Some id ∧ client_secret cfg cname = Some s ∧
         c = {| name := cname; secret := s;
                assetDir := path_join (ASSETS_ROOT cfg) cname |} ∧
         ∀ later, later ∈ after → client_id cfg later ≠ Some id).
Proof.
  split; [apply loadClients_loop_throws|]. split.
  - intros message Hthrows. unfold serve, start. by rewrite Hthrows.
  - intros R HR id c.
    destruct (loadClients_loop_returns _ _ _ _ HR empty_registry_wf) as (_ & _ & Hreg).
    rewrite Hreg, registered_empty. split; [|by left].
    by intros [?|[? _]].
Qed.

(** What holds of every own entry of a registry that [loadClients] built. *)
Lemma loadClients_own cfg R id c :
  loadClients cfg = Returns R → (id, c) ∈ own R →
  props_get id (own R) = Some c ∧ id ≠ "" ∧ secret c ≠ "" ∧
  client_id cfg (name c) = Some id ∧ name c ≠ "".
Proof.
  intros HR Hin.
  destruct (loadClients_loop_returns _ _ _ _ HR empty_registry_wf)
    as ([Hkeys _] & Htruthy & Hreg).
  assert (props_get id (own R) = Some c) as Hget by by apply elem_props_get.
  split; [done|].
  apply registered_own, Hreg in Hget
    as [(before & n & after & s & Hnames & Hid & Hs & -> & _)|[Hempty _]].
  2: { by rewrite registered_empty in Hempty. }
  assert (n ∈ client_names cfg) as Hn.
  { rewrite Hnames. apply elem_of_app. right. left. }
  destruct (Htruthy n Hn) as [Hidt Hst].
  rewrite Hid in Hidt. rewrite Hs in Hst.
  apply truthy_true in Hidt as (? & [= <-] & ?).
  apply truthy_true in Hst as (? & [= <-] & ?).
  repeat split; try done. simpl.
  unfold client_names, comma_list in Hn. apply list_elem_of_filter in Hn as [Hn _].
  unfold truthy_string in Hn. by apply Is_true_true, negb_true_iff, bool_decide_eq_false in Hn.
Qed.


(** X1. Names are unique in the registry: two own entries of a registry
    that [loadClients] built which carry the same name are one entry, so
    the static route's search by name has at most one match. *)
Theorem client_names_are_unique (cfg : config) (R : registry)
    (id id' : string) (c c' : Client) :
  loadClients cfg = Returns R → (id, c) ∈ own R → (id', c') ∈ own R →
  name c = name c' → id = id' ∧ c = c'.
Proof.
  intros HR Hc Hc' Hname.
  destruct (loadClients_own _ _ _ _ HR Hc) as (Hget & _ & _ & Hid & _).
  destruct (loadClients_own _ _ _ _ HR Hc') as (Hget' & _ & _ & Hid' & _).
  rewrite Hname in Hid. split; congruence.
Qed.

End Startup.

(** ** The middleware stack *)

Lemma lower_char_slash a :
  bool_decide (lower_char a = "/"%char) = bool_decide (a = "/"%char).
Proof. by destruct a as [[] [] [] [] [] [] [] []]. Qed.

Lemma split_lower p : split "/" (lower p) = lower <$> split "/" p.
Proof.
  induction p as [|a p IH]; [done|]. cbn [lower split].
  rewrite lower_char_slash, IH. case_bool_decide; [done|].
  by destruct (split "/" p).
Qed.

(** A path below the mount point [/assets/:client] is not the path of the
    index route. *)
Lemma mounted_not_protected req segment rest :
  mount_matches (pathname req) = Some (segment, rest) → protected req = false.
Proof.
  unfold mount_matches, protected, route_matches. intros Hmount.
  apply andb_false_iff. right. apply orb_false_iff.
  split; apply bool_decide_eq_false; intros Hlower;
    apply (f_equal (split "/")) in Hlower; rewrite split_lower in Hlower;
    destruct (split "/" (pathname req)) as [|s0 [|a [|c l]]]; try done;
    destruct s0; try done; simplify_eq/=;
    by rewrite bool_decide_false in Hmount by congruence.
Qed.

Section Stack.
Context {E : Externals}.

Lemma run_route_done route rest store req rs ops r :
  route req rs = (ops, Done r) →
  run (route_layer route :: rest) store req rs = (store, ops, r).
Proof. intros Hroute. cbn [run]. unfold route_layer. by rewrite Hroute. Qed.

Lemma run_route_next route rest store req rs :
  route req rs = ([], Next req rs) →
  run (route_layer route :: rest) store req rs = run rest store req rs.
Proof.
  intros Hroute. cbn [run]. unfold route_layer. rewrite Hroute.
  by destruct (run rest store req rs) as [[? ?] ?].
Qed.

Lemma run_route_throw route rest store req rs ops code :
  route req rs = (ops, Throw code) →
  run (route_layer route :: rest) store req rs
  = (store, ops,
     {| status := code; sent_headers := final_headers (res_headers rs);
        sent_body := Text (status_message code) |}).
Proof. intros Hroute. cbn [run]. unfold route_layer. by rewrite Hroute. Qed.

Lemma run_route_calls route rest store req rs ops :
  route req rs = (ops, Next req rs) →
  run (route_layer route :: rest) store req rs
  = let '(store', ops', r) := run rest store req rs in (store', ops ++ ops', r).
Proof. intros Hroute. cbn [run]. unfold route_layer. by rewrite Hroute. Qed.

Lemma cors_headers_status origins req rs :
  statusCode (cors_headers origins req rs) = statusCode rs.
Proof. unfold cors_headers. by destruct (cors_permits origins req). Qed.

(** A request that passes the layers before the routes is answered by the
    routes, on the store and the response object those layers leave. *)
Lemma app_passes srv fs store req store' rs :
  passes srv store req store' rs →
  app srv fs store req
  = let '(store'', ops, r) := run (routes (CLIENTS srv) fs) store' req rs in
    (store'', ops, for_method req r).
Proof.
  intros (Hmethod & Hjson & hs & Hlimit & ->). unfold app, stack, later_layers.
  cbn [run helmet_layer cors_layer]. unfold cors.
  rewrite bool_decide_false by done.
  unfold after_cors in *. cbn [new_res statusCode res_headers].
  unfold json_layer at 1. rewrite Hjson.
  unfold rateLimit_layer at 1. rewrite Hlimit.
  rewrite cors_headers_status. cbn [statusCode].
  by destruct (run (routes (CLIENTS srv) fs) store' req _) as [[? ?] ?].
Qed.

(** C9. Preflights bypass rate limiting and authentication: every
    [OPTIONS] request is answered 204 by the CORS middleware, whatever
    layers are registered after it: the rate limiter's store is left as it
    was (the request is not counted and gets no 429), no file-system call
    is made, and neither [authenticateClient] nor any later handler runs. *)
Theorem preflight_stops_at_cors (srv : server) (fs : node)
    (later : list middleware) (store : limiter) (req : request) :
  method req = "OPTIONS" →
  run (helmet_layer :: cors_layer (origins srv) :: later) store req new_res
  = (store, [],
     {| status := 204; sent_headers := res_headers (after_cors srv req);
        sent_body := NoBody |}) ∧
  app srv fs store req
  = (store, [],
     {| status := 204; sent_headers := res_headers (after_cors srv req);
        sent_body := NoBody |}).
Proof.
  intros Hmethod.
  assert (∀ later, run (helmet_layer :: cors_layer (origins srv) :: later) store req new_res
    = (store, [],
       {| status := 204; sent_headers := res_headers (after_cors srv req);
          sent_body := NoBody |})) as Hrun.
  { intros l. cbn [run helmet_layer cors_layer]. unfold cors.
    by rewrite bool_decide_true. }
  split; [apply Hrun|]. unfold app, stack. rewrite Hrun.
  unfold for_method. rewrite Hmethod. done.
Qed.

(** C7 as amended. Every [OPTIONS] request is answered 204 with no body by
    the CORS middleware, whether or not its origin is permitted; only the
    response headers depend on the CORS logic: a request without an
    [Origin] (or with an empty one) or with an allowed [Origin] gets the
    four [Access-Control-Allow-*] headers, any other request gets no header
    from this middleware. *)
Theorem preflight_always_204 (allowed : list string) (req : request) (rs : res) :
  method req = "OPTIONS" →
  cors allowed req rs
  = Done {| status := 204; sent_headers := res_headers (cors_headers allowed req rs);
            sent_body := NoBody |} ∧
  (cors_permits allowed req = true ↔
   lacking (header req "origin") ∨ ∃ o, header req "origin" = Some o ∧ o ∈ allowed) ∧
  (cors_permits allowed req = true →
   let sent := res_headers (cors_headers allowed req rs) in
   props_get "Access-Control-Allow-Origin" sent = Some (or_else (header req "origin") "*") ∧
   props_get "Access-Control-Allow-Credentials" sent = Some "true" ∧
   props_get "Access-Control-Allow-Methods" sent = Some "GET,POST,OPTIONS" ∧
   props_get "Access-Control-Allow-Headers" sent
   = Some "Content-Type, Authorization, x-client-id, x-client-secret") ∧
  (cors_permits allowed req = false → cors_headers allowed req rs = rs).
Proof.
  intros Hmethod. split; [|split; [|split]].
  - unfold cors. by rewrite bool_decide_true.
  - unfold cors_permits, includes. rewrite orb_true_iff, negb_true_iff, truthy_false.
    destruct (header req "origin") as [o|].
    + rewrite bool_decide_eq_true. split; [intros [?|?]; eauto|].
      intros [?|(? & [= <-] & ?)]; auto.
    + split; intros _; left; by left.
  - intros Hpermits. unfold cors_headers. rewrite Hpermits.
    cbn [setHeader res_headers]. rewrite !props_get_set.
    repeat split; by repeat (case_bool_decide; try done).
  - intros Hpermits. unfold cors_headers. by rewrite Hpermits.
Qed.

End Stack.

(** ** The routes *)

Section Routes.
Context {E : Externals}.




(** C8 as amended. Unknown client on the static route: a request below
    [/assets/:client] whose [:client] segment cannot be URL-decoded is
    answered 400 by Express before the handler runs.  Otherwise the decoded
    segment is compared with the [name] of each entry of the registry, in
    the order of [Object.values(CLIENTS)], which lists exactly the entries
    of the registry, and the first match is taken.  When no entry has that
    name the route answers 404 and makes no file-system call, and so does
    the server for every request that reaches the routes; when some entry
    has it, the request is handed to the static handler rooted at the
    [assetDir] of the first such entry, and to no other. *)
Theorem unknown_client_is_404 (R : registry) (fs : node) (req : request) (rs : res)
    (segment rest : string) :
  mount_matches (pathname req) = Some (segment, rest) →
  (decodeURIComponent segment = None →
   assets_route R fs req rs = ([], Throw 400) ∧
   ∀ srv store store', CLIENTS srv = R → passes srv store req store' rs →
     ∃ r, app srv fs store req = (store', [], r) ∧ status r = 400) ∧
  (∀ param, decodeURIComponent segment = Some param →
     ((∀ id c, (id, c) ∈ own R → name c ≠ param) →
      assets_route R fs req rs = ([], Done (sendStatus rs 404)) ∧
      status (sendStatus rs 404) = 404 ∧
      ∀ srv store store', CLIENTS srv = R → passes srv store req store' rs →
        app srv fs store req = (store', [], for_method req (sendStatus rs 404))) ∧
     (∀ id c, (id, c) ∈ own R → name c = param →
      ∃ before c' after,
        Object_values R = before ++ c' :: after ∧
        name c' = param ∧ (∀ b, b ∈ before → name b ≠ param) ∧
        (∃ id', (id', c') ∈ own R) ∧
        assets_route R fs req rs
        = ([ServeStatic (assetDir c')],
           match express_static fs (assetDir c') (mounted req rest) rs with
           | Some r => Done r
           | None => Next req rs
           end))) ∧
  Object_values R ≡ₚ (own R).*2.
Proof.
  intros Hmount. split; [|split].
  - intros Hdecode.
    assert (assets_route R fs req rs = ([], Throw 400)) as Hroute
      by (unfold assets_route; by rewrite Hmount, Hdecode).
    split; [done|].
    intros srv store store' <- Hpasses. rewrite (app_passes _ _ _ _ _ _ Hpasses).
    unfold routes. rewrite run_route_next.
    + rewrite (run_route_throw _ _ _ _ _ _ _ Hroute). eexists. split; [done|].
      unfold for_method. by case_bool_decide.
    + unfold api_assets_route. by rewrite (mounted_not_protected _ _ _ Hmount).
  - intros param Hdecode. split.
    + intros Hnone.
      assert (assets_route R fs req rs = ([], Done (sendStatus rs 404))) as Hroute.
      { unfold assets_route. rewrite Hmount, Hdecode, find_none; [done|].
        intros c (k & Hk)%elem_of_Object_values. apply bool_decide_eq_false.
        by apply (Hnone k). }
      split; [done|]. split; [done|].
      intros srv store store' <- Hpasses. rewrite (app_passes _ _ _ _ _ _ Hpasses).
      unfold routes. rewrite run_route_next.
      * by rewrite (run_route_done _ _ _ _ _ _ _ Hroute).
      * unfold api_assets_route. by rewrite (mounted_not_protected _ _ _ Hmount).
    + intros id c Hin Hname.
      destruct (find_stops (λ c, bool_decide (name c = param)) (Object_values R) c)
        as (before & c' & after & Hvalues & Hc' & Hbefore & Hfind).
      { apply elem_of_Object_values. by exists id. }
      { by apply bool_decide_eq_true. }
      exists before, c', after. split; [done|].
      split; [by apply bool_decide_eq_true in Hc'|].
      split; [intros b Hb; apply (bool_decide_eq_false_1 (name b = param)); by apply Hbefore|].
      split.
      * apply elem_of_Object_values. rewrite Hvalues. apply elem_of_app. right. left.
      * unfold assets_route. by rewrite Hmount, Hdecode, Hfind.
  - unfold Object_values. by rewrite own_properties_perm.
Qed.


End Routes.

(** ** The index and the round trip *)


Section RoundTrip.
Context {E : Externals}.

(** Away from backslashes and the key [__proto__], the walk's assignment is
    the one the specification describes. *)
Lemma foldl_assign_as_specified req clientName rels :
  Forall (λ rel, Forall (λ s, free_of "\" s = true) rel ∧ spec_key rel ≠ "__proto__") rels →
  ∀ result,
    foldl (assign req clientName) result rels
    = foldl (λ result rel, props_set (spec_key rel) (spec_url req clientName rel) result)
        result rels.
Proof.
  induction 1 as [|rel rels [Hback Hproto] _ IH]; intros result; [done|].
  cbn [foldl]. rewrite <- IH. f_equal.
  unfold assign, index_set, entry_key, entry_url, spec_key, spec_url in *.
  rewrite replace_backslashes_concat by done. by rewrite bool_decide_false.
Qed.

(** X20. The index entry of each file, as the specification gives it.  When
    no name on the path of a reached entry contains a backslash and no
    reached entry has the key [__proto__], [buildAssetIndex] makes exactly
    one assignment [result[key] = value] for each entry that the recursive
    walk reaches and that is not a directory (every regular file below the
    directory is one), in walk order.  The key is the entry's path relative
    to the directory, with [/] between its names and the final extension
    stripped: a dot followed by one or more characters other than [/] and
    [.] at the end of the text is cut off, so [a.b.txt] gives [a.b] and
    [.gitignore] gives the empty key, and a final segment without a dot is
    unchanged.  The value is [{scheme}://{host}/assets/{clientName}/]
    followed by the relative path with [/] between its names, extension
    retained. *)
Theorem index_entry_for_each_reached (fs : node) (req : request)
    (clientName : string) (dirPath : path) (entries : list (string * node)) :
  fs_lookup fs dirPath = Some (Dir entries) → valid_names (Dir entries) = true →
  Forall (λ rel, Forall (λ s, free_of "\" s = true) rel ∧ spec_key rel ≠ "__proto__")
    (reached [] (Dir entries)).*1 →
  (buildAssetIndex fs req clientName dirPath).2
  = Some (foldl (λ result rel,
                   props_set (spec_key rel) (spec_url req clientName rel) result)
            [] (reached [] (Dir entries)).*1) ∧
  (∀ rel data, fs_lookup (Dir entries) rel = Some (File data) →
     (rel, File data) ∈ reached [] (Dir entries)) ∧
  (∀ rel,
     spec_key rel = strip_extension (String.concat "/" rel) ∧
     spec_url req clientName rel
     = (protocol req +:+ "://" +:+ template (header req "host")) +:+ "/assets/"
       +:+ clientName +:+ "/" +:+ String.concat "/" rel) ∧
  (∀ s e, e ≠ "" → all_chars not_slash_or_dot e = true →
     strip_extension (s +:+ String "." e) = s) ∧
  (∀ s, free_of "." s = true → strip_extension s = s) ∧
  (∀ d s, free_of "." s = true →
     strip_extension (d +:+ String "/" s) = d +:+ String "/" s).
Proof.
  intros Hdir Hvalid Hplain. split_and!.
  - destruct (buildAssetIndex_directory fs req clientName dirPath entries Hdir Hvalid)
      as [log ->]. cbn [snd]. f_equal. by apply foldl_assign_as_specified.
  - intros rel data Hrel. by apply (reached_lookup (Dir entries) rel (File data) []).
  - done.
  - intros s e. apply strip_extension_cut.
  - apply strip_extension_no_dot.
  - intros d s. apply strip_extension_last_segment.
Qed.


End RoundTrip.

(** ** The theorems on the scenario of the specification *)


Lemma missing_header_is_401_witness :
  authenticateClient acme_registry (GET "/api/assets" {[ "x-client-id" := "abc" ]}) new_res
  = Done (unauthorized new_res) ∧
  api_assets_route acme_registry acme_disk
    (GET "/api/assets" {[ "x-client-id" := "abc" ]}) new_res
  = ([], Done (unauthorized new_res)).
Proof.
  destruct (missing_header_is_401 acme_registry acme_disk
              (GET "/api/assets" {[ "x-client-id" := "abc" ]}) new_res) as [Hauth Hroute].
  - right. reflexivity.
  - split; [exact Hauth|]. apply Hroute. reflexivity.
Defined.

Lemma empty_header_is_401_witness :
  authenticateClient acme_registry
    (GET "/api/assets" {[ "x-client-id" := "abc"; "x-client-secret" := "" ]}) new_res
  = Done (unauthorized new_res).
Proof.
  apply (empty_header_is_401 acme_registry acme_disk
           (GET "/api/assets" {[ "x-client-id" := "abc"; "x-client-secret" := "" ]}) new_res).
  right. reflexivity.
Defined.

Lemma credentials_decide_witness :
  (∃ req',
     authenticateClient acme_registry index_request new_res = Next req' new_res ∧
     client req' = Some acme ∧ headers req' = acme_headers) ∧
  authenticateClient acme_registry
    (GET "/api/assets" {[ "x-client-id" := "abc"; "x-client-secret" := "xyz " ]}) new_res
  = Done (forbidden new_res) ∧
  authenticateClient acme_registry
    (GET "/api/assets" {[ "x-client-id" := "toString"; "x-client-secret" := "xyz" ]}) new_res
  = Done (forbidden new_res).
Proof.
  split; [|split].
  - destruct (credentials_decide acme_registry acme_disk index_request new_res "abc" "xyz")
      as (_ & _ & Hright & _); [reflexivity|reflexivity|discriminate|discriminate|].
    destruct (Hright acme) as (req' & Hnext & Hclient & _ & _ & _ & Hheaders & _);
      [reflexivity|reflexivity|].
    exists req'. split; [exact Hnext|]. split; [exact Hclient|exact Hheaders].
  - destruct (credentials_decide acme_registry acme_disk
                (GET "/api/assets" {[ "x-client-id" := "abc"; "x-client-secret" := "xyz " ]})
                new_res "abc" "xyz ")
      as (_ & Hwrong & _); [reflexivity|reflexivity|discriminate|discriminate|].
    apply (Hwrong acme); [reflexivity|discriminate].
  - destruct (credentials_decide acme_registry acme_disk
                (GET "/api/assets" {[ "x-client-id" := "toString"; "x-client-secret" := "xyz" ]})
                new_res "toString" "xyz")
      as (Hunknown & _); [reflexivity|reflexivity|discriminate|discriminate|].
    apply Hunknown. reflexivity.
Defined.

Lemma loadClients_fails_exactly_witness :
  (∃ message, loadClients broken_config = Throws message) ∧
  serve broken_config acme_disk 0 index_request = None ∧
  loadClients acme_config = Returns acme_registry ∧
  registered acme_registry "abc"
  = Some {| name := "acme"; secret := "xyz";
            assetDir := path_join (ASSETS_ROOT acme_config) "acme" |}.
Proof.
  destruct (loadClients_fails_exactly broken_config) as (Hthrows & Hserve & _).
  destruct (loadClients_fails_exactly acme_config) as (_ & _ & Hreturns).
  split; [|split; [|split]].
  - apply Hthrows. exists "acme". split; [vm_compute; left|right; left; reflexivity].
  - apply (Hserve "Missing credentials for client acme"). reflexivity.
  - reflexivity.
  - apply (Hreturns acme_registry eq_refl). exists [], "acme", [], "xyz".
    repeat split. intros later Hlater. by apply elem_of_nil in Hlater.
Defined.


Lemma unknown_client_is_404_witness :
  assets_route acme_registry acme_disk (GET "/assets/doesnotexist/file.png" ∅) plain_res
  = ([], Done (sendStatus plain_res 404)) ∧
  app acme_server acme_disk 0 (GET "/assets/doesnotexist/file.png" ∅)
  = (1, [], sendStatus plain_res 404) ∧
  assets_route acme_registry acme_disk (GET "/assets/acme/logo.png" ∅) plain_res
  = ([ServeStatic (assetDir acme)],
     Done {| status := 200; sent_headers := res_headers plain_res;
             sent_body := Bytes [x89; x50; x4e; x47] |}).
Proof.
  destruct (unknown_client_is_404 (E := reference_externals) acme_registry acme_disk
              (GET "/assets/doesnotexist/file.png" ∅) plain_res
              "doesnotexist" "/file.png") as (_ & Hdecoded & _); [reflexivity|].
  destruct (Hdecoded "doesnotexist") as [Hnone _]; [reflexivity|].
  destruct Hnone as (Hroute & _ & Happ).
  { intros id c Hc. apply list_elem_of_singleton in Hc. injection Hc as _ ->.
    discriminate. }
  split; [exact Hroute|]. split.
  - apply (Happ acme_server 0 1); [reflexivity|].
    split; [discriminate|]. split; [reflexivity|]. eexists. split; reflexivity.
  - destruct (unknown_client_is_404 (E := reference_externals) acme_registry acme_disk
                (GET "/assets/acme/logo.png" ∅) plain_res "acme" "/logo.png")
      as (_ & Hknown & _); [reflexivity|].
    destruct (Hknown "acme") as [_ Hsome]; [reflexivity|].
    destruct (Hsome "abc" acme) as (before & c' & after & Hvalues & _ & _ & _ & Hserved);
      [apply list_elem_of_singleton; reflexivity|reflexivity|].
    destruct before as [|b before]; [|by destruct before].
    injection Hvalues as <- _. exact Hserved.
Defined.

Lemma preflight_stops_at_cors_witness :
  run (E := reference_externals)
    (helmet_layer :: cors_layer [] :: later_layers acme_registry acme_disk)
    120 foreign_preflight new_res
  = (120, [],
     {| status := 204;
        sent_headers := [("Cross-Origin-Resource-Policy", "cross-origin")];
        sent_body := NoBody |}).
Proof.
  apply (preflight_stops_at_cors (E := reference_externals) acme_server acme_disk
           (later_layers acme_registry acme_disk) 120 foreign_preflight).
  reflexivity.
Defined.

Lemma preflight_always_204_witness :
  cors [] foreign_preflight new_res
  = Done {| status := 204; sent_headers := []; sent_body := NoBody |} ∧
  cors ["https://elsewhere.example"] foreign_preflight new_res
  = Done {| status := 204;
            sent_headers := res_headers (cors_headers ["https://elsewhere.example"]
                                           foreign_preflight new_res);
            sent_body := NoBody |}.
Proof.
  split.
  - apply (preflight_always_204 [] foreign_preflight new_res). reflexivity.
  - apply (preflight_always_204 ["https://elsewhere.example"] foreign_preflight new_res).
    reflexivity.
Defined.

Lemma index_entry_for_each_reached_witness :
  (buildAssetIndex acme_disk index_request "acme" (assetDir acme)).2
  = Some [("logo", "http://host/assets/acme/logo.png");
          ("sub/dir/img", "http://host/assets/acme/sub/dir/img.png")].
Proof.
  apply (index_entry_for_each_reached acme_disk index_request "acme" (assetDir acme)
           acme_entries); [reflexivity|reflexivity|].
  repeat (apply Forall_cons; split; [split; [repeat constructor|discriminate]|]).
  apply Forall_nil_2.
Defined.


Lemma client_names_are_unique_witness : "abc" = "abc" ∧ acme = acme.
Proof.
  apply (client_names_are_unique acme_config acme_registry "abc" "abc" acme acme);
    try reflexivity; apply list_elem_of_singleton; reflexivity.
Defined.


(** ** Where the code parts from the specification *)


(** C2. The code at the failing input.  On POSIX the backslash in the file
    name [a\b.png] is no separator, yet line 119 and line 125 replace it:
    the index gives the file the key [a/b] and a URL ending in [a/b.png],
    where the specification gives the key [a\b] and a URL ending in
    [a\b.png]; and the URL the index gives names no file, so that a [GET]
    of it is answered 404. *)
Lemma index_rewrites_backslash :
  (buildAssetIndex backslash_disk index_request "acme" (assetDir acme)).2
  = Some [("a/b", "http://host/assets/acme/a/b.png")] ∧
  (spec_key ["a\b.png"], spec_url index_request "acme" ["a\b.png"])
  = ("a\b", "http://host/assets/acme/a\b.png") ∧
  fs_lookup backslash_disk (assetDir acme ++ ["a"; "b.png"]) = None ∧
  (∃ r, app acme_server backslash_disk 0 (GET "/assets/acme/a/b.png" ∅)
        = (1, [ServeStatic (assetDir acme)], r) ∧ status r = 404) ∧
  ¬ index_entry_as_specified.
Proof.
  split; [reflexivity|]. split; [reflexivity|]. split; [reflexivity|].
  split; [eexists; split; reflexivity|].
  intros Hclaim.
  assert ((buildAssetIndex backslash_disk index_request "acme" (assetDir acme)).2
          = Some [(spec_key ["a\b.png"], spec_url index_request "acme" ["a\b.png"])])
    as Hentry by (by apply (Hclaim _ _ _ _ [("a\b.png", File [x01])] _ [x01])).
  vm_compute in Hentry. discriminate.
Qed.

(** A dotfile is listed but not served: the index gives [.env] a URL, under
    the empty key, and the static handler, which ignores dotfiles, leaves
    a [GET] of that URL to the final handler, which answers 404.  This is
    why the round trip of C1 is stated for names that do not start with a
    dot. *)
Lemma dotfile_is_listed_not_served :
  app acme_server dotfile_disk 0 index_request
  = (1, [ExistsSync (assetDir acme); ReaddirSync (assetDir acme)],
     {| status := 200; sent_headers := res_headers plain_res;
        sent_body := Json [("", "http://host/assets/acme/.env")] |}) ∧
  fs_lookup dotfile_disk (assetDir acme ++ [".env"]) = Some (File [x2a]) ∧
  ∃ r, app acme_server dotfile_disk 1 (GET "/assets/acme/.env" ∅)
       = (2, [ServeStatic (assetDir acme)], r) ∧ status r = 404.
Proof.
  split; [reflexivity|]. split; [reflexivity|]. eexists. split; reflexivity.
Qed.

(** C8, as written, fails: no client has the name [%zz], written so or
    decoded, yet the request is answered 400 and not 404: Express cannot
    decode the segment, and the handler does not run. *)
Lemma undecodable_client_is_400 :
  mount_matches "/assets/%zz/file.png" = Some ("%zz", "/file.png") ∧
  decodeURIComponent "%zz" = None ∧
  (∃ r, app acme_server acme_disk 0 (GET "/assets/%zz/file.png" ∅) = (1, [], r) ∧
        status r = 400) ∧
  ¬ unknown_client_as_specified.
Proof.
  split; [reflexivity|]. split; [reflexivity|].
  split; [eexists; split; reflexivity|].
  intros Hclaim.
  destruct (Hclaim acme_server acme_disk (GET "/assets/%zz/file.png" ∅) 0 1 plain_res
              "%zz" "/file.png") as (r & Happ & Hstatus).
  - split; [discriminate|]. split; [reflexivity|]. eexists. split; reflexivity.
  - reflexivity.
  - intros id c Hin. apply list_elem_of_singleton in Hin. injection Hin as _ ->.
    split; discriminate.
  - vm_compute in Happ. injection Happ as <-. discriminate.
Qed.

(** C7, as written, fails: a preflight whose origin is not permitted is
    answered 204 by the CORS middleware all the same, and is not passed on. *)
Lemma foreign_preflight_is_answered :
  cors_permits [] foreign_preflight = false ∧
  cors [] foreign_preflight new_res
  = Done {| status := 204; sent_headers := []; sent_body := NoBody |} ∧
  ¬ preflight_as_specified.
Proof.
  split; [reflexivity|]. split; [reflexivity|].
  intros Hclaim.
  pose proof (Hclaim [] foreign_preflight new_res) as Hnext.
  vm_compute in Hnext. by specialize (Hnext eq_refl).
Qed.

(** ** More on the index *)

Lemma free_of_strip_extension c s :
  free_of c s = true → free_of c (strip_extension s) = true.
Proof.
  induction s as [|a s IH]; [done|]. intros [Ha Hs]%free_of_cons.
  cbn [strip_extension]. destruct (extension_here (String a s)); [done|].
  apply free_of_cons. auto.
Qed.

Lemma free_of_replace_backslashes s : free_of "\" (replace_backslashes s) = true.
Proof.
  induction s as [|a s IH]; [done|]. cbn [replace_backslashes].
  apply free_of_cons. split; [|done]. by case_bool_decide.
Qed.

(** X6. The extension rule, in full: either the text ends in a dot
    followed by one or more characters other than [/] and [.], and exactly
    that dot and what follows it are removed; or it does not end so, and
    the text is returned unchanged. *)
Theorem strip_extension_dichotomy (s : string) :
  (∃ p e, s = p +:+ String "." e ∧ e ≠ "" ∧ all_chars not_slash_or_dot e = true ∧
          strip_extension s = p) ∨
  ((∀ p e, s = p +:+ String "." e → e = "" ∨ all_chars not_slash_or_dot e = false) ∧
   strip_extension s = s).
Proof.
  induction s as [|a s IH].
  - right. split; [|done]. intros [|? ?] e; discriminate.
  - cbn [strip_extension]. destruct (extension_here (String a s)) eqn:Hhere.
    + left. cbn [extension_here] in Hhere.
      apply andb_true_iff in Hhere as [[Ha Hs]%andb_true_iff Hall].
      apply bool_decide_eq_true in Ha as ->. exists "", s.
      repeat split; [|done]. intros ->. done.
    + destruct IH as [(p & e & -> & He & Hall & Hstrip)|[Hnone Hstrip]].
      * left. exists (String a p), e. repeat split; [done..|]. by rewrite Hstrip.
      * right. split; [|by rewrite Hstrip].
        intros [|b p] e; cbn [append]; intros [= -> ->].
        -- cbn [extension_here] in Hhere. rewrite bool_decide_true in Hhere by done.
           cbn [andb] in Hhere. apply andb_false_iff in Hhere as [Hs|Hall]; [left|by right].
           unfold truthy_string in Hs. by apply negb_false_iff, bool_decide_eq_true in Hs.
        -- by apply (Hnone p).
Qed.

Section IndexContents.
Context {E : Externals}.

Lemma assign_no_proto req clientName o rel :
  props_get "__proto__" o = None →
  props_get "__proto__" (assign req clientName o rel) = None.
Proof.
  intros Ho. unfold assign, index_set. case_bool_decide; [done|].
  by rewrite props_get_set, bool_decide_false.
Qed.

Lemma foldl_assign_no_proto req clientName rels o :
  props_get "__proto__" o = None →
  props_get "__proto__" (foldl (assign req clientName) o rels) = None.
Proof.
  revert o. induction rels as [|r rels IH]; intros o Ho; simpl; [done|].
  by apply IH, assign_no_proto.
Qed.

Lemma foldl_assign_NoDup req clientName rels o :
  NoDup (o.*1) → NoDup ((foldl (assign req clientName) o rels).*1).
Proof.
  revert o. induction rels as [|r rels IH]; intros o Ho; simpl; [done|].
  apply IH. unfold assign, index_set. case_bool_decide; [done|].
  by apply props_set_NoDup.
Qed.

(** The value under a key after a run of assignments: that of the last
    assignment to the key, or the one the key had before. *)
Lemma foldl_assign_get req clientName k v rels o :
  props_get "__proto__" o = None →
  props_get k (foldl (assign req clientName) o rels) = Some v →
  (∃ before rel after,
      rels = before ++ rel :: after ∧ entry_key rel = k ∧ k ≠ "__proto__" ∧
      v = entry_url req clientName rel ∧ ∀ r, r ∈ after → entry_key r ≠ k) ∨
  (props_get k o = Some v ∧ ∀ r, r ∈ rels → entry_key r ≠ k).
Proof.
  revert o. induction rels as [|r rels IH]; intros o Ho; simpl.
  - intros Hk. right. split; [done|]. by intros ? []%elem_of_nil.
  - intros [(before & rel & after & -> & ? & ? & ? & ?)|[Hk Hrels]]%IH;
      [| |by apply assign_no_proto].
    + left. by exists (r :: before), rel, after.
    + destruct (decide (entry_key r = k)) as [Hr|Hr].
      * unfold assign, index_set in Hk. case_bool_decide as Hproto; [congruence|].
        rewrite props_get_set, bool_decide_true in Hk by done. simplify_eq.
        left. by exists [], r, rels.
      * right. split.
        -- unfold assign, index_set in Hk. case_bool_decide; [done|].
           by rewrite props_get_set, bool_decide_false in Hk.
        -- intros r' [->|?]%elem_of_cons; auto.
Qed.

(** X3. What the index holds: under a key it has a value exactly when some
    entry reached by the walk has that key and the key is not [__proto__],
    and the value then is the URL of the last such entry in walk order
    (last write wins); the index has no entry the walk did not assign. *)
Theorem index_holds_last_writes (fs : node) (req : request) (clientName : string)
    (dirPath : path) (entries : list (string * node)) :
  fs_lookup fs dirPath = Some (Dir entries) → valid_names (Dir entries) = true →
  ∃ assets,
    (buildAssetIndex fs req clientName dirPath).2 = Some assets ∧
    ∀ k v, props_get k assets = Some v ↔
      ∃ before rel after,
        (reached [] (Dir entries)).*1 = before ++ rel :: after ∧
        entry_key rel = k ∧ k ≠ "__proto__" ∧ v = entry_url req clientName rel ∧
        ∀ r, r ∈ after → entry_key r ≠ k.
Proof.
  intros Hdir Hvalid.
  destruct (buildAssetIndex_directory fs req clientName dirPath entries Hdir Hvalid)
    as [log Hbuild].
  eexists. split; [by rewrite Hbuild|]. intros k v. split.
  - intros [?|[[=] _]]%foldl_assign_get; done.
  - intros (before & rel & after & -> & <- & Hproto & -> & Hafter).
    by apply foldl_assign_last.
Qed.

(** X4. The keys of the index: they are pairwise distinct, none is
    [__proto__], none contains a backslash, and each is the key of an entry
    the walk reached, stored with the URL of such an entry. *)
Theorem index_keys_are_clean (fs : node) (req : request) (clientName : string)
    (dirPath : path) (entries : list (string * node)) :
  fs_lookup fs dirPath = Some (Dir entries) → valid_names (Dir entries) = true →
  ∃ assets,
    (buildAssetIndex fs req clientName dirPath).2 = Some assets ∧
    NoDup (assets.*1) ∧
    ∀ k v, (k, v) ∈ assets →
      k ≠ "__proto__" ∧ free_of "\" k = true ∧
      ∃ rel y, (rel, y) ∈ reached [] (Dir entries) ∧
               k = entry_key rel ∧ v = entry_url req clientName rel.
Proof.
  intros Hdir Hvalid.
  destruct (buildAssetIndex_directory fs req clientName dirPath entries Hdir Hvalid)
    as [log Hbuild].
  eexists. split; [by rewrite Hbuild|]. split.
  - apply foldl_assign_NoDup, NoDup_nil_2.
  - intros k v Hin. split; [|split].
    + intros ->.
      assert (props_get "__proto__"
                (foldl (assign req clientName) [] (reached [] (Dir entries)).*1) = None)
        as Hnone by by apply foldl_assign_no_proto.
      apply props_get_None in Hnone. apply Hnone.
      apply list_elem_of_fmap. by exists ("__proto__", v).
    + apply foldl_assign_elem in Hin as [[]%elem_of_nil|(r & _ & -> & _)].
      apply free_of_strip_extension, free_of_replace_backslashes.
    + apply foldl_assign_elem in Hin as [[]%elem_of_nil|(r & Hr & -> & ->)].
      apply list_elem_of_fmap in Hr as ([rel y] & -> & Hr). by exists rel, y.
Qed.


End IndexContents.

(** ** More on the file system *)

Lemma valid_names_lookup fs p x :
  valid_names fs = true → fs_lookup fs p = Some x → valid_names x = true.
Proof.
  revert fs. induction p as [|s p IH]; intros fs Hvalid; simpl.
  - by intros [= <-].
  - destruct fs as [| |entries]; [done..|].
    destruct (lookup_entry s entries) as [z|] eqn:Hs; [|done].
    apply IH. apply lookup_entry_elem in Hs. cbn [valid_names] in Hvalid.
    rewrite forallb_forall in Hvalid.
    specialize (Hvalid _ (proj1 (list_elem_of_In _ _) Hs)).
    by apply andb_true_iff in Hvalid as [_ ?].
Qed.

Section Isolation.
Context {E : Externals}.

(** Every directory a walk lists lies at or below the directory the walk
    started from. *)
Lemma walk_log_under req clientName dirPath x :
  valid_names x = true →
  ∀ prefix st st',
    walk req clientName dirPath (dirPath ++ prefix) x st = Some st' →
    ∃ log, st'.2 = st.2 ++ log ∧
           Forall (λ op, ∃ p, op = ReaddirSync (dirPath ++ p)) log.
Proof.
  induction x as [data| |entries IH] using node_induction; [done..|].
  intros Hvalid prefix [result ops] st'. cbn [walk fst snd]. intros Hloop.
  cbn [valid_names] in Hvalid.
  remember (result, ops ++ [ReaddirSync (dirPath ++ prefix)]) as st0 eqn:Hst0.
  assert (∃ log, st'.2 = st0.2 ++ log ∧
                 Forall (λ op, ∃ p, op = ReaddirSync (dirPath ++ p)) log)
    as (log & Hlog & Hunder).
  { clear Hst0. revert st0 Hloop.
    induction IH as [|[ename y] entries IHy _ IHentries]; intros st0; cbn [for_each].
    - intros [= <-]. exists []. split; [by rewrite app_nil_r|constructor].
    - cbn [forallb fst snd] in Hvalid.
      apply andb_true_iff in Hvalid as [[Hname Hy]%andb_true_iff Hentries].
      cbn [fst snd]. rewrite path_join_valid, <- app_assoc by done.
      destruct (isDirectory y).
      + destruct (walk _ _ _ _ y st0) as [st1|] eqn:Hwalk; [|done].
        cbn [mbind option_bind]. intros Hrest.
        apply (IHy Hy (prefix ++ [ename])) in Hwalk as (log1 & Hlog1 & Hunder1).
        apply (IHentries Hentries) in Hrest as (log2 & Hlog2 & Hunder2).
        exists (log1 ++ log2). split; [by rewrite Hlog2, Hlog1, app_assoc|].
        by apply Forall_app.
      + cbn [mbind option_bind]. intros Hrest.
        apply (IHentries Hentries) in Hrest as (log2 & Hlog2 & Hunder2).
        by exists log2. }
  subst st0. cbn [snd] in Hlog.
  exists ([ReaddirSync (dirPath ++ prefix)] ++ log).
  split; [by rewrite Hlog, app_assoc|]. apply Forall_app. split; [|done].
  constructor; [by exists prefix|constructor].
Qed.

(** The index handler stays inside the client's directory: every
    file-system call it makes is [existsSync(assetDir)] or a [readdirSync]
    of [assetDir] or of a path below it. *)
Lemma api_assets_log_below (fs : node) (req : request) (rs : res) (c : Client) :
  valid_names fs = true → client req = Some c →
  ∀ op, op ∈ (api_assets fs req rs).1 →
    op = ExistsSync (assetDir c) ∨ ∃ p, op = ReaddirSync (assetDir c ++ p).
Proof.
  intros Hvalid Hc op. unfold api_assets. rewrite Hc.
  assert (∀ op', op' ∈ (buildAssetIndex fs req (name c) (assetDir c)).1 →
                 ∃ p, op' = ReaddirSync (assetDir c ++ p)) as Hbuild.
  { intros op'. unfold buildAssetIndex.
    destruct (fs_lookup fs (assetDir c)) as [here|] eqn:Hhere.
    2: { intros ->%list_elem_of_singleton. exists []. by rewrite app_nil_r. }
    destruct (walk _ _ _ _ here _) as [st|] eqn:Hwalk.
    2: { intros ->%list_elem_of_singleton. exists []. by rewrite app_nil_r. }
    rewrite <- (app_nil_r (assetDir c)) in Hwalk at 2.
    apply walk_log_under in Hwalk as (log & Hlog & Hunder);
      [|by eapply valid_names_lookup].
    cbn [fst snd] in *. rewrite Hlog. rewrite Forall_forall in Hunder. apply Hunder. }
  destruct (existsSync fs (assetDir c)); cbn [negb].
  - destruct (buildAssetIndex fs req (name c) (assetDir c)) as [ops [assets|]];
      cbn [fst snd] in *; intros [->|Hop]%elem_of_cons; auto.
  - cbn [fst]. intros ->%list_elem_of_singleton. by left.
Qed.

End Isolation.

(** ** More on authentication and startup *)

Section Credentials.
Context {E : Externals}.

(** The three ways in which [authenticateClient] ends. *)
Lemma authenticateClient_cases R req rs :
  authenticateClient R req rs = Done (unauthorized rs) ∨
  authenticateClient R req rs = Done (forbidden rs) ∨
  ∃ id c,
    header req "x-client-id" = Some id ∧ id ≠ "" ∧
    header req "x-client-secret" = Some (secret c) ∧ secret c ≠ "" ∧
    registered R id = Some c ∧
    authenticateClient R req rs = Next (set_client req c) rs.
Proof.
  destruct (truthy (header req "x-client-id")) eqn:Hid.
  2: { left. unfold authenticateClient. by rewrite Hid. }
  destruct (truthy (header req "x-client-secret")) eqn:Hs.
  2: { left. unfold authenticateClient. by rewrite Hid, Hs. }
  apply truthy_true in Hid as (id & Hid & Hid_ne).
  apply truthy_true in Hs as (s & Hs & Hs_ne).
  right. rewrite (authenticateClient_present R req rs id s) by done.
  destruct (registry_get R id) as [|s0|c| |k] eqn:Hget; simpl;
    try (left; by rewrite ?orb_true_r).
  case_bool_decide as Hsecret; simpl; [|by left].
  right. exists id, c. injection Hsecret as <-.
  repeat split; try done. unfold registered. by rewrite Hget.
Qed.

(** X9. The credentials as configured are accepted: for an own entry of
    the registry that [loadClients] built, every request whose
    [x-client-id] header is the entry's key and whose [x-client-secret]
    header is the entry's secret passes [authenticateClient]: [next()] is
    called with the response object untouched and the request as it was
    except that [req.client] now is that entry's record, and on the
    protected route the index handler runs on that request.  Nothing is
    said of a configured value that no request header can carry. *)
Theorem configured_credentials_are_accepted (cfg : config) (R : registry) (fs : node)
    (id : string) (c : Client) (req : request) (rs : res) :
  loadClients cfg = Returns R → (id, c) ∈ own R →
  header req "x-client-id" = Some id → header req "x-client-secret" = Some (secret c) →
  ∃ req',
    authenticateClient R req rs = Next req' rs ∧
    client req' = Some c ∧
    method req' = method req ∧ pathname req' = pathname req ∧
    protocol req' = protocol req ∧ headers req' = headers req ∧
    (protected req = true →
     api_assets_route R fs req rs = api_assets fs req' rs).
Proof.
  intros HR Hin Hid Hsecret.
  destruct (loadClients_own _ _ _ _ HR Hin) as (Hget & Hid_ne & Hs_ne & _).
  assert (authenticateClient R req rs = Next (set_client req c) rs) as Hnext.
  { apply (authenticateClient_accepts R req rs id c); try done.
    by apply registered_own. }
  exists (set_client req c). split; [done|]. repeat (split; [done|]).
  intros Hroute. unfold api_assets_route. by rewrite Hroute, Hnext.
Qed.

(** X10. What authentication can do: [authenticateClient] never throws; the
    only responses it sends are the 401 and the 403 error; and when it
    calls [next()], the request carries a non-empty id under which a client
    is registered and that client's non-empty secret, the response object
    is untouched, and the request is changed only by having that client's
    record attached. *)
Theorem authentication_outcomes (R : registry) (req : request) (rs : res) :
  (∀ code, authenticateClient R req rs ≠ Throw code) ∧
  (∀ r, authenticateClient R req rs = Done r → r = unauthorized rs ∨ r = forbidden rs) ∧
  (∀ req' rs', authenticateClient R req rs = Next req' rs' →
     rs' = rs ∧
     ∃ id c,
       header req "x-client-id" = Some id ∧ id ≠ "" ∧
       header req "x-client-secret" = Some (secret c) ∧ secret c ≠ "" ∧
       registered R id = Some c ∧ req' = set_client req c).
Proof.
  destruct (authenticateClient_cases R req rs)
    as [->|[->|(id & c & Hid & ? & Hs & ? & Hc & ->)]].
  - split; [done|]. split; [intros r [= <-]; by left|done].
  - split; [done|]. split; [intros r [= <-]; by right|done].
  - split; [done|]. split; [done|]. intros req' rs' [= <- <-].
    split; [done|]. by exists id, c.
Qed.

(** X12. No file-system access without credentials: whenever the index
    route makes any file-system call, the request carried the id of a
    registered client together with that client's secret. *)
Theorem fs_access_requires_credentials (R : registry) (fs : node)
    (req : request) (rs : res) (op : fs_op) :
  op ∈ (api_assets_route R fs req rs).1 →
  ∃ id c,
    header req "x-client-id" = Some id ∧
    header req "x-client-secret" = Some (secret c) ∧
    registered R id = Some c.
Proof.
  unfold api_assets_route. destruct (protected req); [|by intros []%elem_of_nil].
  destruct (authenticateClient_cases R req rs)
    as [->|[->|(id & c & Hid & ? & Hs & ? & Hc & ->)]].
  - by intros []%elem_of_nil.
  - by intros []%elem_of_nil.
  - intros _. by exists id, c.
Qed.

(** The message of the error names the first listed client that lacks a
    value. *)
Lemma loadClients_loop_culprit cfg names R0 message :
  loadClients_loop cfg names R0 = Throws message →
  ∃ before cname after,
    names = before ++ cname :: after ∧
    message = "Missing credentials for client " +:+ cname ∧
    (lacking (client_id cfg cname) ∨ lacking (client_secret cfg cname)) ∧
    ∀ b, b ∈ before →
      truthy (client_id cfg b) = true ∧ truthy (client_secret cfg b) = true.
Proof.
  revert R0. induction names as [|n names IH]; intros R0; cbn [loadClients_loop]; [done|].
  destruct (truthy (client_id cfg n)) eqn:Hid; simpl.
  2: { intros [= <-]. exists [], n, names. split_and!; [done|done| |].
       - left. by apply truthy_false.
       - by intros ? []%elem_of_nil. }
  destruct (truthy (client_secret cfg n)) eqn:Hs; simpl.
  2: { intros [= <-]. exists [], n, names. split_and!; [done|done| |].
       - right. by apply truthy_false.
       - by intros ? []%elem_of_nil. }
  destruct (client_id cfg n) as [i|] eqn:Hi; [|done].
  destruct (client_secret cfg n) as [s|] eqn:Hsec; [|done].
  intros (before & cname & after & -> & -> & Hlacks & Hbefore)%IH.
  exists (n :: before), cname, after. split_and!; [done|done|done|].
  intros b [->|Hb]%elem_of_cons; [by rewrite Hi, Hsec|by apply Hbefore].
Qed.

(** X11. The startup error names the culprit: when [loadClients] throws,
    the message is [Missing credentials for client ] followed by the name
    of the first client in the list that lacks an id or a secret; every
    client listed before it has both. *)
Theorem loadClients_names_first_culprit (cfg : config) (message : string) :
  loadClients cfg = Throws message →
  ∃ before cname after,
    client_names cfg = before ++ cname :: after ∧
    message = "Missing credentials for client " +:+ cname ∧
    (lacking (client_id cfg cname) ∨ lacking (client_secret cfg cname)) ∧
    ∀ b, b ∈ before →
      ¬ lacking (client_id cfg b) ∧ ¬ lacking (client_secret cfg b).
Proof.
  intros (before & cname & after & Hnames & -> & Hlacks & Hbefore)%loadClients_loop_culprit.
  exists before, cname, after. split_and!; [done|done|done|].
  intros b Hb. destruct (Hbefore b Hb) as [Hi Hs].
  split; intros Hlack%truthy_false; congruence.
Qed.

(** [comma_list] of nothing is empty, given that trimming the empty string
    leaves it empty. *)
Lemma comma_list_lacking v : trim "" = "" → lacking v → comma_list (or_else v "") = [].
Proof.
  intros Htrim Hv.
  assert (or_else v "" = "") as -> by (by destruct Hv as [-> | ->]).
  unfold comma_list. cbn [split fmap list_fmap]. rewrite Htrim.
  done.
Qed.

(** X8. A server without clients: when [CLIENTS] is unset or empty (and
    trimming the empty string gives the empty string), [loadClients]
    returns the empty registry and the server starts; it then answers every
    request to the index route with 401 or 403 and every request below
    [/assets/:client] with 404, without any file-system call. *)
Theorem server_without_clients (cfg : config) :
  trim "" = "" → lacking (env cfg !! "CLIENTS") →
  loadClients cfg = Returns empty_registry ∧
  (∀ fs req rs, protected req = true →
     api_assets_route empty_registry fs req rs = ([], Done (unauthorized rs)) ∨
     api_assets_route empty_registry fs req rs = ([], Done (forbidden rs))) ∧
  (∀ fs req rs segment rest param,
     mount_matches (pathname req) = Some (segment, rest) →
     decodeURIComponent segment = Some param →
     assets_route empty_registry fs req rs = ([], Done (sendStatus rs 404))).
Proof.
  intros Htrim Hlacking. split; [|split].
  - unfold loadClients, client_names. by rewrite comma_list_lacking.
  - intros fs req rs Hroute. unfold api_assets_route. rewrite Hroute.
    destruct (authenticateClient_cases empty_registry req rs)
      as [->|[->|(id & c & _ & _ & _ & _ & Hc & _)]]; [by left|by right|].
    by rewrite registered_empty in Hc.
  - intros fs req rs segment rest param Hmount Hdecode.
    unfold assets_route. by rewrite Hmount, Hdecode.
Qed.

(** X7. The CORS headers never name a foreign origin: when the response
    had no [Access-Control-Allow-Origin] header before the middleware ran
    and has one after, its value is [*] and the request had no (or an
    empty) [Origin], or it is the request's [Origin] and that is in the
    allow-list.  Requests other than [OPTIONS] are always passed on,
    unchanged. *)
Theorem cors_never_names_foreign_origin (allowed : list string)
    (req : request) (rs : res) :
  (method req ≠ "OPTIONS" → cors allowed req rs = Next req (cors_headers allowed req rs)) ∧
  (props_get "Access-Control-Allow-Origin" (res_headers rs) = None →
   ∀ o, props_get "Access-Control-Allow-Origin" (res_headers (cors_headers allowed req rs))
        = Some o →
        (lacking (header req "origin") ∧ o = "*") ∨
        (header req "origin" = Some o ∧ o ≠ "" ∧ o ∈ allowed)).
Proof.
  split.
  - intros Hmethod. unfold cors. by rewrite bool_decide_false.
  - intros Hnone o. unfold cors_headers. destruct (cors_permits allowed req) eqn:Hpermits.
    2: { by rewrite Hnone. }
    cbn [setHeader res_headers]. rewrite !props_get_set.
    repeat (case_bool_decide; try done). intros [= <-].
    unfold cors_permits, includes in Hpermits.
    destruct (header req "origin") as [s|] eqn:Horigin; [|left; split; [by left|done]].
    unfold or_else, truthy in *. destruct (truthy_string s) eqn:Hs.
    + right. cbn in Hpermits. apply bool_decide_eq_true in Hpermits.
      unfold truthy_string in Hs. apply negb_true_iff, bool_decide_eq_false in Hs.
      done.
    + left. unfold truthy_string in Hs. apply negb_false_iff, bool_decide_eq_true in Hs.
      subst s. split; [by right|done].
Qed.

(** X13. Without an allow-list only requests without an origin are
    permitted: when [CORS_ORIGINS] is unset or empty (and trimming the
    empty string gives the empty string), the list of allowed origins is
    empty, and the CORS logic permits a request exactly when it has no
    [Origin] header or an empty one. *)
Theorem cors_without_allow_list (cfg : config) :
  trim "" = "" → lacking (env cfg !! "CORS_ORIGINS") →
  ALLOWED_ORIGINS cfg = [] ∧
  ∀ req, cors_permits (ALLOWED_ORIGINS cfg) req = true ↔ lacking (header req "origin").
Proof.
  intros Htrim Hlacking.
  assert (ALLOWED_ORIGINS cfg = []) as Hnone
    by (unfold ALLOWED_ORIGINS; by apply comma_list_lacking).
  split; [done|]. intros req. rewrite Hnone. unfold cors_permits, includes.
  rewrite orb_true_iff, negb_true_iff, truthy_false.
  destruct (header req "origin") as [o|].
  - rewrite bool_decide_eq_true. split; [intros [?|[]%elem_of_nil]; done|by left].
  - split; [intros _; by left|by left].
Qed.

End Credentials.

(** ** More on the application *)

Section Application.
Context {E : Externals}.

(** The index handler answers or throws; it never calls [next()]. *)
Lemma api_assets_stops fs req rs req' rs' : (api_assets fs req rs).2 ≠ Next req' rs'.
Proof.
  unfold api_assets. destruct (client req) as [c|]; [|done].
  destruct (existsSync fs (assetDir c)); cbn [negb]; [|done].
  by destruct (buildAssetIndex fs req (name c) (assetDir c)) as [ops [assets|]].
Qed.

(** Every request is answered by a layer before the routes, without any
    file-system call, or reaches the routes. *)
Lemma app_cases srv fs store req :
  (∃ store' r, app srv fs store req = (store', [], r)) ∨
  ∃ store' rs, passes srv store req store' rs.
Proof.
  destruct (decide (method req = "OPTIONS")) as [Hmethod|Hmethod].
  { left. unfold app, stack. cbn [run helmet_layer cors_layer]. unfold cors.
    rewrite bool_decide_true by done. by eexists _, _. }
  destruct (express_json req (after_cors srv req)) as [r|] eqn:Hjson.
  { left. unfold app, stack, later_layers. cbn [run helmet_layer cors_layer]. unfold cors.
    rewrite bool_decide_false by done. unfold after_cors in Hjson.
    cbn [new_res statusCode res_headers]. unfold json_layer at 1. rewrite Hjson.
    by eexists _, _. }
  destruct (rateLimit store req (after_cors srv req)) as [store' [hs|r]] eqn:Hlimit.
  - right. exists store', {| statusCode := 200; res_headers := hs |}.
    split; [done|]. split; [done|]. by exists hs.
  - left. unfold app, stack, later_layers. cbn [run helmet_layer cors_layer]. unfold cors.
    rewrite bool_decide_false by done. unfold after_cors in Hjson, Hlimit.
    cbn [new_res statusCode res_headers]. unfold json_layer at 1. rewrite Hjson.
    unfold rateLimit_layer at 1. rewrite Hlimit. by eexists _, _.
Qed.

(** The file-system calls of the three routes. *)
Lemma routes_log R fs store req rs op :
  valid_names fs = true →
  op ∈ (run (routes R fs) store req rs).1.2 →
  (∃ id c, registered R id = Some c ∧
     (op = ExistsSync (assetDir c) ∨ ∃ p, op = ReaddirSync (assetDir c ++ p))) ∨
  (∃ c, c ∈ Object_values R ∧ op = ServeStatic (assetDir c)).
Proof.
  intros Hvalid. unfold routes.
  destruct (protected req) eqn:Hprotected.
  - destruct (authenticateClient_cases R req rs)
      as [Hauth|[Hauth|(id & c & _ & _ & _ & _ & Hc & Hauth)]].
    + erewrite run_route_done; [|unfold api_assets_route; by rewrite Hprotected, Hauth].
      by intros []%elem_of_nil.
    + erewrite run_route_done; [|unfold api_assets_route; by rewrite Hprotected, Hauth].
      by intros []%elem_of_nil.
    + assert (api_assets_route R fs req rs = api_assets fs (set_client req c) rs) as Hroute
        by (unfold api_assets_route; by rewrite Hprotected, Hauth).
      pose proof (api_assets_log_below fs (set_client req c) rs c Hvalid eq_refl) as Hlog.
      pose proof (api_assets_stops fs (set_client req c) rs) as Hstops.
      destruct (api_assets fs (set_client req c) rs) as [ops [r|req' rs'|code]] eqn:Hindex.
      * erewrite run_route_done; [|by rewrite Hroute]. cbn [fst snd].
        intros Hop. left. exists id, c. split; [done|]. by apply Hlog.
      * by destruct (Hstops req' rs').
      * erewrite run_route_throw; [|by rewrite Hroute]. cbn [fst snd].
        intros Hop. left. exists id, c. split; [done|]. by apply Hlog.
  - rewrite run_route_next by (unfold api_assets_route; by rewrite Hprotected).
    assert (∀ o, (run [route_layer health_route] store req rs) = o → o.1.2 = []) as Hhealth.
    { intros o <-. cbn [run]. unfold route_layer, health_route.
      by destruct (get_or_head req && route_matches "/health" (pathname req)). }
    destruct (mount_matches (pathname req)) as [[segment rest]|] eqn:Hmount.
    2: { rewrite run_route_next by (unfold assets_route; by rewrite Hmount).
         rewrite (Hhealth _ eq_refl). by intros []%elem_of_nil. }
    destruct (decodeURIComponent segment) as [param|] eqn:Hdecode.
    2: { erewrite run_route_throw; [|unfold assets_route; by rewrite Hmount, Hdecode].
         by intros []%elem_of_nil. }
    destruct (List.find (λ c, bool_decide (name c = param)) (Object_values R))
      as [c|] eqn:Hfind.
    2: { erewrite run_route_done; [|unfold assets_route; by rewrite Hmount, Hdecode, Hfind].
         by intros []%elem_of_nil. }
    assert (c ∈ Object_values R) as Hc
      by (apply find_some in Hfind as [Hin _]; by apply list_elem_of_In).
    destruct (express_static fs (assetDir c) (mounted req rest) rs) as [r|] eqn:Hstatic.
    + erewrite run_route_done;
        [|unfold assets_route; by rewrite Hmount, Hdecode, Hfind, Hstatic].
      cbn [fst snd]. intros ->%list_elem_of_singleton. right. by exists c.
    + erewrite run_route_calls;
        [|unfold assets_route; by rewrite Hmount, Hdecode, Hfind, Hstatic].
      pose proof (Hhealth _ eq_refl) as Hnil.
      destruct (run [route_layer health_route] store req rs) as [[store' ops] r].
      cbn [fst snd] in *. subst ops.
      intros ->%list_elem_of_singleton. right. by exists c.
Qed.

(** X5. The server touches the file system only for its clients: on a file
    system with valid names, every file-system call made in answering any
    request is [existsSync(assetDir)] or a [readdirSync] of [assetDir] or
    of a path below it, for the directory of a client registered under
    some id, or the static handler rooted at the [assetDir] of a client in
    the registry. *)
Theorem server_reads_only_client_directories (srv : server) (fs : node)
    (store : limiter) (req : request) (op : fs_op) :
  valid_names fs = true →
  op ∈ (app srv fs store req).1.2 →
  (∃ id c, registered (CLIENTS srv) id = Some c ∧
     (op = ExistsSync (assetDir c) ∨ ∃ p, op = ReaddirSync (assetDir c ++ p))) ∨
  (∃ c, c ∈ Object_values (CLIENTS srv) ∧ op = ServeStatic (assetDir c)).
Proof.
  intros Hvalid.
  destruct (app_cases srv fs store req) as [(store' & r & ->)|(store' & rs & Hpasses)].
  { by intros []%elem_of_nil. }
  rewrite (app_passes _ _ _ _ _ _ Hpasses).
  pose proof (routes_log (CLIENTS srv) fs store' req rs op Hvalid) as Hlog.
  destruct (run (routes (CLIENTS srv) fs) store' req rs) as [[store'' ops] r].
  apply Hlog.
Qed.

(** X15. An asset directory that is a regular file: when [assetDir] of the
    authenticated client names a regular file, [existsSync] finds it and
    [readdirSync] throws, so the handler sends nothing and Express answers
    500; and so the server answers a [GET /api/assets] that carries the
    credentials of such a client and reaches the routes, after exactly
    those two file-system calls. *)
Theorem asset_file_is_500 (fs : node) (req : request) (rs : res) (id : string)
    (c : Client) (data : list byte) :
  fs_lookup fs (assetDir c) = Some (File data) →
  (client req = Some c →
   api_assets fs req rs
   = ([ExistsSync (assetDir c); ReaddirSync (assetDir c)], Throw 500)) ∧
  (∀ srv store store',
     registered (CLIENTS srv) id = Some c → id ≠ "" → secret c ≠ "" →
     method req = "GET" → pathname req = "/api/assets" →
     header req "x-client-id" = Some id →
     header req "x-client-secret" = Some (secret c) →
     passes srv store req store' rs →
     ∃ r, app srv fs store req
          = (store', [ExistsSync (assetDir c); ReaddirSync (assetDir c)], r) ∧
          status r = 500).
Proof.
  intros Hfile.
  assert (∀ req', client req' = Some c →
            api_assets fs req' rs
            = ([ExistsSync (assetDir c); ReaddirSync (assetDir c)], Throw 500)) as Hthrows.
  { intros req' Hc. unfold api_assets. rewrite Hc.
    rewrite (proj2 (existsSync_true fs (assetDir c))) by by rewrite Hfile.
    cbn [negb]. unfold buildAssetIndex. by rewrite Hfile. }
  split; [apply Hthrows|].
  intros srv store store' Hc Hid_ne Hs_ne Hmethod Hpath Hid Hsecret Hpasses.
  rewrite (app_passes _ _ _ _ _ _ Hpasses). unfold routes.
  erewrite run_route_throw.
  - eexists. split; [done|]. unfold for_method. by case_bool_decide.
  - unfold api_assets_route, protected, get_or_head, route_matches.
    rewrite Hmethod, Hpath. cbn [lower]. rewrite !bool_decide_true by done.
    cbn [orb andb].
    rewrite (authenticateClient_accepts _ req rs id c) by done.
    by apply Hthrows.
Qed.

Lemma props_get_removeHeader n h hs :
  props_get h (removeHeader n hs) = if bool_decide (h = n) then None else props_get h hs.
Proof.
  unfold removeHeader. induction hs as [|[k v] hs IH]; [by case_bool_decide|].
  rewrite (filter_cons (λ h, h.1 ≠ n) (k, v) hs).
  destruct (decide ((k, v).1 ≠ n)) as [Hk|Hk]; cbn [props_get fst] in *; rewrite IH.
  - repeat case_bool_decide; congruence.
  - apply dec_stable in Hk. subst k. repeat case_bool_decide; congruence.
Qed.

(** What the final handler does to the headers. *)
Lemma final_headers_get hs :
  props_get "Content-Security-Policy" (final_headers hs) = Some "default-src 'none'" ∧
  props_get "X-Content-Type-Options" (final_headers hs) = Some "nosniff" ∧
  ∀ h, h ∉ final_handler_headers →
       props_get h (final_headers hs) = props_get h hs.
Proof.
  unfold final_headers. split_and!.
  - by rewrite !props_get_set.
  - by rewrite !props_get_set.
  - intros h Hh. rewrite !props_get_set, !props_get_removeHeader.
    repeat (case_bool_decide; [subst h; exfalso; apply Hh; set_solver|]). done.
Qed.

(** X16. A request no route matches: when it reaches the routes and is
    neither [GET]/[HEAD] [/api/assets] nor below [/assets/:client] nor
    [GET]/[HEAD] [/health], it is answered 404 by Express's final handler,
    without authentication and without any file-system call.  The final
    handler sets [Content-Security-Policy] to [default-src 'none'] and
    [X-Content-Type-Options] to [nosniff], over what an earlier layer set
    for them; every other header of the earlier layers, the content
    headers the final handler removes or replaces apart, is sent as they
    left it. *)
Theorem unrouted_is_404 (srv : server) (fs : node) (req : request)
    (store store' : limiter) (rs : res) :
  passes srv store req store' rs →
  protected req = false → mount_matches (pathname req) = None →
  get_or_head req && route_matches "/health" (pathname req) = false →
  ∃ r, app srv fs store req = (store', [], r) ∧
       status r = 404 ∧
       props_get "Content-Security-Policy" (sent_headers r) = Some "default-src 'none'" ∧
       props_get "X-Content-Type-Options" (sent_headers r) = Some "nosniff" ∧
       ∀ h, h ∉ final_handler_headers →
            props_get h (sent_headers r) = props_get h (res_headers rs).
Proof.
  intros Hpasses Hprotected Hmount Hhealth. rewrite (app_passes _ _ _ _ _ _ Hpasses).
  unfold routes.
  rewrite run_route_next by (unfold api_assets_route; by rewrite Hprotected).
  rewrite run_route_next by (unfold assets_route; by rewrite Hmount).
  rewrite run_route_next by (unfold health_route; by rewrite Hhealth).
  cbn [run]. eexists. split; [done|].
  assert (∀ r, status (for_method req r) = status r ∧
               sent_headers (for_method req r) = sent_headers r) as Hsame
    by (intros r; unfold for_method; by case_bool_decide).
  destruct (Hsame {| status := 404; sent_headers := final_headers (res_headers rs);
                     sent_body := Text ("Cannot " +:+ method req +:+ " " +:+ pathname req) |})
    as [-> ->].
  split; [done|]. apply final_headers_get.
Qed.

(** X17. Rejected before the routes: a request that is no preflight and
    that the body parser rejects is answered with the parser's response,
    with the rate limiter's store unchanged; one the parser accepts and
    the rate limiter rejects is answered with the limiter's response.  In
    both cases no route runs: there is no authentication and no
    file-system call, whatever the registry and the disk. *)
Theorem rejected_before_routes (srv : server) (fs : node) (store : limiter)
    (req : request) :
  method req ≠ "OPTIONS" →
  (∀ r, express_json req (after_cors srv req) = Some r →
        app srv fs store req = (store, [], for_method req r)) ∧
  (∀ store' r, express_json req (after_cors srv req) = None →
        rateLimit store req (after_cors srv req) = (store', inr r) →
        app srv fs store req = (store', [], for_method req r)).
Proof.
  intros Hmethod. split.
  - intros r Hjson. unfold app, stack, later_layers.
    cbn [run helmet_layer cors_layer]. unfold cors.
    rewrite bool_decide_false by done. unfold after_cors in Hjson.
    cbn [new_res statusCode res_headers]. unfold json_layer at 1. by rewrite Hjson.
  - intros store' r Hjson Hlimit. unfold app, stack, later_layers.
    cbn [run helmet_layer cors_layer]. unfold cors.
    rewrite bool_decide_false by done. unfold after_cors in Hjson, Hlimit.
    cbn [new_res statusCode res_headers]. unfold json_layer at 1. rewrite Hjson.
    unfold rateLimit_layer at 1. by rewrite Hlimit.
Qed.

(** X18. Asset directories sit directly below the root: when the server
    starts and every listed client name is a valid file name, every client
    registered under some id, and every client in the registry, is a listed
    client whose [assetDir] is [ASSETS_ROOT] followed by its name. *)
Theorem client_directories_below_root (cfg : config) (srv : server) (c : Client) :
  start cfg = Returns srv →
  (∀ cname, cname ∈ client_names cfg → valid_name cname = true) →
  (c ∈ Object_values (CLIENTS srv) ∨ ∃ id, registered (CLIENTS srv) id = Some c) →
  name c ∈ client_names cfg ∧ assetDir c = ASSETS_ROOT cfg ++ [name c].
Proof.
  intros Hstart Hnames Hc. unfold start in Hstart.
  destruct (loadClients cfg) as [R|] eqn:HR; [|done]. injection Hstart as <-.
  cbn [CLIENTS] in Hc.
  assert (∃ id, registered R id = Some c) as (id & Hid).
  { destruct Hc as [(k & Hk)%elem_of_Object_values|Hc]; [|done].
    exists k. apply registered_own. by apply (loadClients_own cfg R k c). }
  destruct (loadClients_loop_returns _ _ _ _ HR empty_registry_wf) as (_ & _ & Hreg).
  apply Hreg in Hid
    as [(before & cname & after & s & Hlist & _ & _ & -> & _)|[Hempty _]].
  2: { by rewrite registered_empty in Hempty. }
  assert (cname ∈ client_names cfg) as Hin
    by (rewrite Hlist; apply elem_of_app; right; left).
  split; [done|]. cbn [assetDir name client_record].
  by rewrite path_join_valid by by apply Hnames.
Qed.

End Application.

(** ** The id [__proto__] *)

(** The last element of a list with a property. *)
Lemma last_such {A} (P : A → Prop) `{!∀ x, Decision (P x)} (l : list A) :
  Exists P l →
  ∃ before y after, l = before ++ y :: after ∧ P y ∧ ∀ z, z ∈ after → ¬ P z.
Proof.
  induction l as [|a l IH]; [by intros ?%Exists_nil|].
  intros Hex. destruct (decide (Exists P l)) as [Hl|Hl].
  - destruct (IH Hl) as (before & y & after & -> & Hy & Hafter).
    by exists (a :: before), y, after.
  - apply Exists_cons in Hex as [Ha|?]; [|done].
    exists [], a, l. split_and!; [done|done|].
    intros z Hz Pz. apply Hl, Exists_exists. eauto.
Qed.

Section ProtoId.
Context {E : Externals}.

(** X19. A client whose id is [__proto__] is registered but not served: the
    assignment [clients["__proto__"] = record] sets the prototype of the
    registry instead of creating an entry.  So when the server starts with
    a listed client whose id is [__proto__], the last such client
    authenticates under that id with its secret, yet no client listed by
    [Object.values(CLIENTS)] has that id, and every request below
    [/assets/] followed by that client's name is answered 404 without any
    file-system call. *)
Theorem client_with_id_proto_is_not_served (cfg : config) (R : registry)
    (cname : string) :
  loadClients cfg = Returns R → cname ∈ client_names cfg →
  client_id cfg cname = Some "__proto__" →
  (∃ c, registered R "__proto__" = Some c ∧
        client_id cfg (name c) = Some "__proto__" ∧
        ∀ req rs,
          header req "x-client-id" = Some "__proto__" →
          header req "x-client-secret" = Some (secret c) →
          authenticateClient R req rs = Next (set_client req c) rs) ∧
  (∀ c, c ∈ Object_values R → client_id cfg (name c) ≠ Some "__proto__") ∧
  (∀ fs req rs segment rest,
     mount_matches (pathname req) = Some (segment, rest) →
     decodeURIComponent segment = Some cname →
     assets_route R fs req rs = ([], Done (sendStatus rs 404))).
Proof.
  intros HR Hin Hid.
  destruct (loadClients_loop_returns _ _ _ _ HR empty_registry_wf)
    as ([_ Hproto] & Htruthy & Hreg).
  assert (∀ c, c ∈ Object_values R → client_id cfg (name c) ≠ Some "__proto__")
    as Hvalues.
  { intros c (k & Hk)%elem_of_Object_values.
    destruct (loadClients_own cfg R k c HR Hk) as (Hget & _ & _ & Hcid & _).
    rewrite Hcid. intros [= ->]. congruence. }
  split; [|split; [done|]].
  - destruct (last_such (λ n, client_id cfg n = Some "__proto__") (client_names cfg))
      as (before & y & after & Hlist & Hy & Hafter).
    { apply Exists_exists. eauto. }
    destruct (Htruthy y) as [_ Hs]; [rewrite Hlist; apply elem_of_app; right; left|].
    apply truthy_true in Hs as (s & Hs & Hs_ne).
    assert (registered R "__proto__" = Some (client_record cfg y s)) as Hc.
    { apply Hreg. left. by exists before, y, after, s. }
    exists (client_record cfg y s). split; [done|]. split; [done|].
    intros req rs Hheader1 Hheader2.
    by apply (authenticateClient_accepts R req rs "__proto__").
  - intros fs req rs segment rest Hmount Hdecode.
    unfold assets_route. rewrite Hmount, Hdecode. rewrite find_none; [done|].
    intros c Hc. apply bool_decide_eq_false. intros Hname.
    apply (Hvalues c Hc). by rewrite Hname.
Qed.

End ProtoId.

(** ** The added properties on the reference server *)

Lemma index_holds_last_writes_witness :
  ∃ assets,
    (buildAssetIndex collision_disk index_request "acme" (assetDir acme)).2 = Some assets ∧
    props_get "a" assets = Some "http://host/assets/acme/a.png".
Proof.
  destruct (index_holds_last_writes collision_disk index_request "acme" (assetDir acme)
              [("a.jpg", File [x01]); ("a.png", File [x02])])
    as (assets & Hassets & Hholds); [reflexivity..|].
  exists assets. split; [exact Hassets|]. apply Hholds.
  exists [["a.jpg"]], ["a.png"], [].
  split; [reflexivity|]. split; [reflexivity|]. split; [discriminate|].
  split; [reflexivity|]. intros r Hr. by apply elem_of_nil in Hr.
Defined.

Lemma index_keys_are_clean_witness :
  ∃ assets,
    (buildAssetIndex backslash_disk index_request "acme" (assetDir acme)).2 = Some assets ∧
    NoDup (assets.*1).
Proof.
  destruct (index_keys_are_clean backslash_disk index_request "acme" (assetDir acme)
              [("a\b.png", File [x01])])
    as (assets & Hassets & Hkeys & _); [reflexivity..|].
  exists assets. split; [exact Hassets|exact Hkeys].
Defined.


Lemma server_reads_only_client_directories_witness :
  ReaddirSync (assetDir acme ++ ["sub"]) ∈ (app acme_server acme_disk 0 index_request).1.2 ∧
  ((∃ id c, registered (CLIENTS acme_server) id = Some c ∧
      (ReaddirSync (assetDir acme ++ ["sub"]) = ExistsSync (assetDir c) ∨
       ∃ p, ReaddirSync (assetDir acme ++ ["sub"]) = ReaddirSync (assetDir c ++ p))) ∨
   (∃ c, c ∈ Object_values (CLIENTS acme_server) ∧
      ReaddirSync (assetDir acme ++ ["sub"]) = ServeStatic (assetDir c))).
Proof.
  assert (ReaddirSync (assetDir acme ++ ["sub"])
          ∈ (app (E := reference_externals) acme_server acme_disk 0 index_request).1.2)
    as Hcall by (vm_compute; repeat constructor).
  split; [exact Hcall|].
  apply (server_reads_only_client_directories (E := reference_externals)
           acme_server acme_disk 0 index_request); [reflexivity|exact Hcall].
Defined.

Lemma cors_never_names_foreign_origin_witness :
  cors [] index_request new_res = Next index_request (cors_headers [] index_request new_res).
Proof.
  apply (cors_never_names_foreign_origin [] index_request new_res). discriminate.
Defined.

Lemma server_without_clients_witness :
  loadClients (E := reference_externals) bare_config = Returns empty_registry.
Proof.
  apply (server_without_clients (E := reference_externals) bare_config);
    [reflexivity|left; reflexivity].
Defined.

Lemma configured_credentials_are_accepted_witness :
  ∃ req',
    authenticateClient acme_registry index_request plain_res = Next req' plain_res ∧
    client req' = Some acme.
Proof.
  destruct (configured_credentials_are_accepted (E := reference_externals)
              acme_config acme_registry acme_disk "abc" acme index_request plain_res)
    as (req' & Hnext & Hclient & _); try reflexivity.
  - apply list_elem_of_singleton. reflexivity.
  - exists req'. split; [exact Hnext|exact Hclient].
Defined.

Lemma authentication_outcomes_witness :
  ∃ id c,
    header index_request "x-client-id" = Some id ∧ id ≠ "" ∧
    header index_request "x-client-secret" = Some (secret c) ∧ secret c ≠ "" ∧
    registered acme_registry id = Some c ∧
    set_client index_request acme = set_client index_request c.
Proof.
  destruct (authentication_outcomes acme_registry index_request plain_res)
    as (_ & _ & Hnext).
  destruct (Hnext (set_client index_request acme) plain_res) as [_ Hclient];
    [reflexivity|exact Hclient].
Defined.

Lemma fs_access_requires_credentials_witness :
  ∃ id c,
    header index_request "x-client-id" = Some id ∧
    header index_request "x-client-secret" = Some (secret c) ∧
    registered acme_registry id = Some c.
Proof.
  apply (fs_access_requires_credentials acme_registry acme_disk index_request plain_res
           (ExistsSync (assetDir acme))).
  vm_compute. repeat constructor.
Defined.

Lemma loadClients_names_first_culprit_witness :
  ∃ before cname after,
    client_names (E := reference_externals) broken_config = before ++ cname :: after ∧
    "Missing credentials for client acme" = "Missing credentials for client " +:+ cname.
Proof.
  destruct (loadClients_names_first_culprit (E := reference_externals) broken_config
              "Missing credentials for client acme")
    as (before & cname & after & Hnames & Hmessage & _); [reflexivity|].
  exists before, cname, after. split; [exact Hnames|exact Hmessage].
Defined.

Lemma cors_without_allow_list_witness :
  ALLOWED_ORIGINS (E := reference_externals) bare_config = [].
Proof.
  apply (cors_without_allow_list (E := reference_externals) bare_config);
    [reflexivity|left; reflexivity].
Defined.

Lemma asset_file_is_500_witness :
  api_assets file_disk (set_client index_request acme) plain_res
  = ([ExistsSync (assetDir acme); ReaddirSync (assetDir acme)], Throw 500) ∧
  ∃ r, app acme_server file_disk 0 index_request
       = (1, [ExistsSync (assetDir acme); ReaddirSync (assetDir acme)], r) ∧
       status r = 500.
Proof.
  split.
  - destruct (asset_file_is_500 (E := reference_externals) file_disk
                (set_client index_request acme) plain_res "abc" acme [x00])
      as [Hhandler _]; [reflexivity|].
    apply Hhandler. reflexivity.
  - destruct (asset_file_is_500 (E := reference_externals) file_disk
                index_request plain_res "abc" acme [x00])
      as [_ Hserver]; [reflexivity|].
    apply (Hserver acme_server 0 1); try reflexivity; try discriminate.
    split; [discriminate|]. split; [reflexivity|]. eexists. split; reflexivity.
Defined.

Lemma unrouted_is_404_witness :
  ∃ r,
    app acme_server acme_disk 0
      {| method := "POST"; pathname := "/api/assets"; protocol := "http";
         headers := acme_headers; client := None |}
    = (1, [], r) ∧
    status r = 404 ∧
    props_get "Content-Security-Policy" (sent_headers r) = Some "default-src 'none'" ∧
    props_get "Access-Control-Allow-Origin" (sent_headers r) = Some "*".
Proof.
  destruct (unrouted_is_404 (E := reference_externals) acme_server acme_disk
              {| method := "POST"; pathname := "/api/assets"; protocol := "http";
                 headers := acme_headers; client := None |} 0 1 plain_res)
    as (r & Happ & Hstatus & Hpolicy & _ & Hkept); try reflexivity.
  { split; [discriminate|]. split; [reflexivity|]. eexists. split; reflexivity. }
  exists r. split; [exact Happ|]. split; [exact Hstatus|]. split; [exact Hpolicy|].
  rewrite Hkept; [reflexivity|].
  intros Hin. repeat (apply elem_of_cons in Hin as [Hin|Hin]; [discriminate|]).
  by apply elem_of_nil in Hin.
Defined.

Lemma rejected_before_routes_witness :
  app acme_server acme_disk 120 index_request
  = (121, [],
     {| status := 429; sent_headers := res_headers plain_res;
        sent_body := Text "Too many requests, please try again later." |}).
Proof.
  destruct (rejected_before_routes (E := reference_externals)
              acme_server acme_disk 120 index_request) as [_ Hlimit]; [discriminate|].
  exact (Hlimit 121
           {| status := 429; sent_headers := res_headers plain_res;
              sent_body := Text "Too many requests, please try again later." |}
           eq_refl eq_refl).
Defined.

Lemma client_directories_below_root_witness :
  name acme ∈ client_names (E := reference_externals) acme_config ∧
  assetDir acme = ASSETS_ROOT acme_config ++ [name acme].
Proof.
  apply (client_directories_below_root (E := reference_externals)
           acme_config acme_server acme); [reflexivity| |right; by exists "abc"].
  intros cname Hcname. vm_compute in Hcname.
  apply list_elem_of_singleton in Hcname as ->. reflexivity.
Defined.

Lemma client_with_id_proto_is_not_served_witness :
  loadClients (E := reference_externals) proto_config = Returns proto_registry ∧
  authenticateClient proto_registry
    (GET "/api/assets" {[ "x-client-id" := "__proto__"; "x-client-secret" := "xyz" ]})
    plain_res
  = Next (set_client
            (GET "/api/assets" {[ "x-client-id" := "__proto__"; "x-client-secret" := "xyz" ]})
            acme) plain_res ∧
  assets_route proto_registry acme_disk (GET "/assets/acme/logo.png" ∅) plain_res
  = ([], Done (sendStatus plain_res 404)).
Proof.
  destruct (client_with_id_proto_is_not_served (E := reference_externals)
              proto_config proto_registry "acme")
    as ((c & Hc & _ & Hauth) & _ & Hstatic); [reflexivity| |reflexivity|].
  { apply list_elem_of_singleton. reflexivity. }
  split; [reflexivity|]. split.
  - injection Hc as <-. apply Hauth; reflexivity.
  - apply (Hstatic acme_disk (GET "/assets/acme/logo.png" ∅) plain_res "acme" "/logo.png");
      reflexivity.
Defined.
